(** * moltworker: gateway supervision and reconciliation

    A shallow embedding of the four pieces of the repository that decide
    how the OpenClaw gateway is started and kept alive:

    - [Env]: [buildEnvVars] of [src/gateway/env.ts];
    - [Orchestrator]: [findExistingMoltbotProcess], [ensureMoltbotGateway]
      and [_ensureMoltbotGatewayOnce] of [src/gateway/process.ts];
    - [Patch]: the node script that patches [openclaw.json] in the startup
      script;
    - [Startup]: the startup script itself (guard, warm/cold gate, cold
      setup sequence, supervisor loop, redacted dump of the config). *)

From Stdlib Require Import ZArith Lia Ascii String.
From stdpp Require Import gmap strings list fin_maps pretty.

Open Scope string_scope.
Open Scope list_scope.
Open Scope nat_scope.

(** ** JavaScript strings and truthiness of optional strings *)

(** [s.includes(needle)]. *)
Fixpoint includes (needle s : string) : bool :=
  String.prefix needle s ||
  match s with
  | EmptyString => false
  | String _ rest => includes needle rest
  end.

(** A value of type [string | undefined] used as a condition: it counts
    when it is defined and not the empty string. *)
Definition truthy (o : option string) : option string :=
  match o with
  | Some v => if decide (v = "") then None else Some v
  | None => None
  end.

Lemma truthy_Some o v : truthy o = Some v ↔ o = Some v ∧ v ≠ "".
Proof.
  unfold truthy. destruct o as [w|].
  - destruct (decide (w = "")) as [->|Hw]; split.
    + discriminate.
    + intros [H Hv]. injection H as <-. by destruct Hv.
    + intros H. injection H as <-. done.
    + intros [H _]. injection H as <-. done.
  - split; [discriminate | intros [H _]; discriminate].
Qed.

Lemma truthy_None o : truthy o = None ↔ o = None ∨ o = Some "".
Proof.
  unfold truthy. destruct o as [w|].
  - destruct (decide (w = "")) as [->|Hw]; split.
    + auto.
    + done.
    + discriminate.
    + intros [H|H]; [discriminate | injection H as ->; by destruct Hw].
  - split; auto.
Qed.

Lemma prefix_app needle s : String.prefix needle s = true ↔ ∃ post, s = needle +:+ post.
Proof.
  revert s. induction needle as [|c needle IH]; intros s; cbn.
  - destruct s; split; eauto.
  - destruct s as [|c' s]; cbn.
    + split; [discriminate|]. intros [post [=]].
    + destruct (Ascii.ascii_dec c c') as [->|Hne].
      * rewrite IH. split; intros [post Hpost]; exists post.
        -- cbn. by rewrite Hpost.
        -- by injection Hpost.
      * split; [discriminate|]. intros [post [= ? _]]. done.
Qed.

(** [includes] is the substring test. *)
Lemma includes_substring needle s :
  includes needle s = true ↔ ∃ pre post, s = pre +:+ needle +:+ post.
Proof.
  induction s as [|c s IH]; cbn [includes].
  - rewrite orb_false_r, prefix_app. split.
    + intros [post Hpost]. by exists "", post.
    + intros (pre & post & Hs). destruct pre as [|? ?]; [|discriminate].
      by exists post.
  - rewrite orb_true_iff, prefix_app, IH. split.
    + intros [[post Hpost] | (pre & post & Hs)].
      * by exists "", post.
      * exists (String c pre), post. cbn. by rewrite Hs.
    + intros (pre & post & Hs). destruct pre as [|c' pre].
      * left. by exists post.
      * right. injection Hs as _ Hs. by exists pre, post.
Qed.

Lemma truthy_truthy o : truthy (truthy o) = truthy o.
Proof.
  unfold truthy. destruct o as [v|]; [|done].
  by destruct (decide (v = "")); cbn; [|destruct (decide (v = ""))].
Qed.

(** ** [src/gateway/env.ts] *)

Module Env.

(** [MoltbotEnv] (declared in [../types], not among the sources) is read
    here only through its optional string bindings; a binding that is not
    set is absent from the map. *)
Abbreviation MoltbotEnv := (gmap string string).

(** [Record<string, string>]. *)
Abbreviation EnvVars := (gmap string string).

(** [url.replace(/\/+$/, '')]: the regular expression matches the maximal
    run of slashes that ends the string, and that run is removed. *)
Fixpoint replace_trailing_slashes (url : string) : string :=
  match url with
  | EmptyString => EmptyString
  | String c rest =>
      match replace_trailing_slashes rest with
      | EmptyString => if decide (c = "/"%char) then EmptyString else String c EmptyString
      | rest' => String c rest'
      end
  end.

(** [if (env.SRC) envVars.DST = env.SRC;] *)
Definition pass (env : MoltbotEnv) (src dst : string) (envVars : EnvVars) : EnvVars :=
  match truthy (env !! src) with
  | Some v => <[dst := v]> envVars
  | None => envVars
  end.

Definition same (env : MoltbotEnv) (name : string) : EnvVars → EnvVars :=
  pass env name name.

Definition legacy_ai_gateway (env : MoltbotEnv) (envVars : EnvVars) : EnvVars :=
  match truthy (env !! "AI_GATEWAY_API_KEY"), truthy (env !! "AI_GATEWAY_BASE_URL") with
  | Some key, Some url =>
      let normalizedBaseUrl := replace_trailing_slashes url in
      let envVars := <["AI_GATEWAY_BASE_URL" := normalizedBaseUrl]> envVars in
      let envVars := <["ANTHROPIC_BASE_URL" := normalizedBaseUrl]> envVars in
      <["ANTHROPIC_API_KEY" := key]> envVars
  | _, _ => same env "ANTHROPIC_BASE_URL" envVars
  end.

Definition buildEnvVars (env : MoltbotEnv) : EnvVars :=
  let envVars : EnvVars := ∅ in
  (* Cloudflare AI Gateway configuration (new native provider) *)
  let envVars := same env "CLOUDFLARE_AI_GATEWAY_API_KEY" envVars in
  let envVars := same env "CF_AI_GATEWAY_ACCOUNT_ID" envVars in
  let envVars := same env "CF_AI_GATEWAY_GATEWAY_ID" envVars in
  (* Direct provider keys *)
  let envVars := same env "ANTHROPIC_API_KEY" envVars in
  let envVars := same env "OPENAI_API_KEY" envVars in
  (* Legacy AI Gateway support *)
  let envVars := legacy_ai_gateway env envVars in
  let envVars := pass env "MOLTBOT_GATEWAY_TOKEN" "SANDBOX_GATEWAY_TOKEN" envVars in
  let envVars := pass env "DEV_MODE" "OPENCLAW_DEV_MODE" envVars in
  let envVars := same env "TELEGRAM_BOT_TOKEN" envVars in
  let envVars := same env "TELEGRAM_DM_POLICY" envVars in
  let envVars := same env "TELEGRAM_DM_ALLOW_FROM" envVars in
  let envVars := same env "DISCORD_BOT_TOKEN" envVars in
  let envVars := same env "DISCORD_DM_POLICY" envVars in
  let envVars := same env "SLACK_BOT_TOKEN" envVars in
  let envVars := same env "SLACK_APP_TOKEN" envVars in
  let envVars := same env "CF_AI_GATEWAY_MODEL" envVars in
  let envVars := same env "CF_ACCOUNT_ID" envVars in
  let envVars := same env "CDP_SECRET" envVars in
  let envVars := same env "WORKER_URL" envVars in
  (* Google OAuth credentials *)
  let envVars := same env "GOOGLE_CLIENT_ID" envVars in
  let envVars := same env "GOOGLE_CLIENT_SECRET" envVars in
  let envVars := same env "GOOGLE_REFRESH_TOKEN" envVars in
  let envVars := same env "GOOGLE_CALENDAR_REFRESH_TOKEN" envVars in
  (* Supermemory API *)
  let envVars := same env "SUPERMEMORY_API_KEY" envVars in
  (* Twilio *)
  let envVars := same env "TWILIO_ACCOUNT_SID" envVars in
  let envVars := same env "TWILIO_AUTH_TOKEN" envVars in
  let envVars := same env "TWILIO_PHONE_NUMBER" envVars in
  (* R2 persistence credentials *)
  let envVars := same env "R2_ACCESS_KEY_ID" envVars in
  let envVars := same env "R2_SECRET_ACCESS_KEY" envVars in
  let envVars := same env "R2_BUCKET_NAME" envVars in
  envVars.

(** A string made of [n] slashes. *)
Fixpoint slashes (n : nat) : string :=
  match n with
  | O => EmptyString
  | S n => String "/"%char (slashes n)
  end.

(** The string does not end with a slash. *)
Fixpoint no_trailing_slash (s : string) : bool :=
  match s with
  | EmptyString => true
  | String c EmptyString => negb (Ascii.eqb c "/"%char)
  | String _ rest => no_trailing_slash rest
  end.

(** The variables copied without any condition but their own, with the
    name each gets in the bundle. *)
Definition copied : list (string * string) :=
  [ ("CLOUDFLARE_AI_GATEWAY_API_KEY", "CLOUDFLARE_AI_GATEWAY_API_KEY");
    ("CF_AI_GATEWAY_ACCOUNT_ID", "CF_AI_GATEWAY_ACCOUNT_ID");
    ("CF_AI_GATEWAY_GATEWAY_ID", "CF_AI_GATEWAY_GATEWAY_ID");
    ("OPENAI_API_KEY", "OPENAI_API_KEY");
    ("MOLTBOT_GATEWAY_TOKEN", "SANDBOX_GATEWAY_TOKEN");
    ("DEV_MODE", "OPENCLAW_DEV_MODE");
    ("TELEGRAM_BOT_TOKEN", "TELEGRAM_BOT_TOKEN");
    ("TELEGRAM_DM_POLICY", "TELEGRAM_DM_POLICY");
    ("TELEGRAM_DM_ALLOW_FROM", "TELEGRAM_DM_ALLOW_FROM");
    ("DISCORD_BOT_TOKEN", "DISCORD_BOT_TOKEN");
    ("DISCORD_DM_POLICY", "DISCORD_DM_POLICY");
    ("SLACK_BOT_TOKEN", "SLACK_BOT_TOKEN");
    ("SLACK_APP_TOKEN", "SLACK_APP_TOKEN");
    ("CF_AI_GATEWAY_MODEL", "CF_AI_GATEWAY_MODEL");
    ("CF_ACCOUNT_ID", "CF_ACCOUNT_ID");
    ("CDP_SECRET", "CDP_SECRET");
    ("WORKER_URL", "WORKER_URL");
    ("GOOGLE_CLIENT_ID", "GOOGLE_CLIENT_ID");
    ("GOOGLE_CLIENT_SECRET", "GOOGLE_CLIENT_SECRET");
    ("GOOGLE_REFRESH_TOKEN", "GOOGLE_REFRESH_TOKEN");
    ("GOOGLE_CALENDAR_REFRESH_TOKEN", "GOOGLE_CALENDAR_REFRESH_TOKEN");
    ("SUPERMEMORY_API_KEY", "SUPERMEMORY_API_KEY");
    ("TWILIO_ACCOUNT_SID", "TWILIO_ACCOUNT_SID");
    ("TWILIO_AUTH_TOKEN", "TWILIO_AUTH_TOKEN");
    ("TWILIO_PHONE_NUMBER", "TWILIO_PHONE_NUMBER");
    ("R2_ACCESS_KEY_ID", "R2_ACCESS_KEY_ID");
    ("R2_SECRET_ACCESS_KEY", "R2_SECRET_ACCESS_KEY");
    ("R2_BUCKET_NAME", "R2_BUCKET_NAME") ].

(** The names a bundle can hold. *)
Definition bundle_names : list string :=
  ["ANTHROPIC_API_KEY"; "ANTHROPIC_BASE_URL"; "AI_GATEWAY_BASE_URL"] ++ copied.*2.

(** *** Facts about [buildEnvVars] *)

Lemma lookup_pass_ne env src dst (envVars : EnvVars) k :
  dst ≠ k → pass env src dst envVars !! k = envVars !! k.
Proof.
  intros Hne. unfold pass. destruct (truthy (env !! src)); [|done].
  by rewrite lookup_insert_ne.
Qed.

Lemma lookup_same_ne env name (envVars : EnvVars) k :
  name ≠ k → same env name envVars !! k = envVars !! k.
Proof. apply lookup_pass_ne. Qed.

Lemma lookup_same_None env name (envVars : EnvVars) :
  envVars !! name = None → same env name envVars !! name = truthy (env !! name).
Proof.
  intros Hnone. unfold same, pass. destruct (truthy (env !! name)); [|done].
  by rewrite lookup_insert_eq.
Qed.

Lemma replace_trailing_slashes_suffix url :
  ∃ n, url = replace_trailing_slashes url +:+ slashes n.
Proof.
  induction url as [|c rest [n IH]]; [by exists 0|]. cbn [replace_trailing_slashes].
  destruct (replace_trailing_slashes rest) as [|a r] eqn:Hrest.
  - cbn in IH. destruct (decide (c = "/"%char)) as [->|Hc].
    + exists (S n). cbn. by rewrite IH.
    + exists n. cbn. by rewrite IH.
  - exists n. cbn in *. by rewrite IH at 1.
Qed.

Lemma replace_trailing_slashes_stripped url :
  no_trailing_slash (replace_trailing_slashes url) = true.
Proof.
  induction url as [|c rest IH]; [done|]. cbn [replace_trailing_slashes].
  destruct (replace_trailing_slashes rest) as [|a r] eqn:Hrest.
  - destruct (decide (c = "/"%char)) as [->|Hc]; [done|]. cbn.
    by destruct (Ascii.eqb_spec c "/"%char).
  - exact IH.
Qed.

(** Every value of the bundle is a non-empty string. *)
Definition nonempty_values (envVars : EnvVars) : Prop :=
  map_Forall (λ _ v, v ≠ "") envVars.

Lemma pass_nonempty env src dst envVars :
  nonempty_values envVars → nonempty_values (pass env src dst envVars).
Proof.
  intros Hall. unfold pass. destruct (truthy (env !! src)) as [v|] eqn:Hv; [|done].
  apply truthy_Some in Hv as [_ Hv]. by apply map_Forall_insert_2.
Qed.

(** The bundle can hold an empty string only through the legacy AI Gateway
    branch, when the base URL consists of slashes alone. *)
Lemma buildEnvVars_nonempty env :
  (∀ key url, truthy (env !! "AI_GATEWAY_API_KEY") = Some key →
              truthy (env !! "AI_GATEWAY_BASE_URL") = Some url →
              replace_trailing_slashes url ≠ "") →
  nonempty_values (buildEnvVars env).
Proof.
  intros Hurl. unfold buildEnvVars, same.
  repeat apply pass_nonempty.
  unfold legacy_ai_gateway.
  destruct (truthy (env !! "AI_GATEWAY_API_KEY")) as [key|] eqn:Hkey;
    [destruct (truthy (env !! "AI_GATEWAY_BASE_URL")) as [url|] eqn:Hbase|].
  - apply truthy_Some in Hkey as Hkey'. destruct Hkey' as [_ Hkey'].
    specialize (Hurl key url eq_refl eq_refl).
    repeat apply map_Forall_insert_2; try done.
    repeat apply pass_nonempty. apply map_Forall_empty.
  - unfold same. repeat apply pass_nonempty. apply map_Forall_empty.
  - unfold same. repeat apply pass_nonempty. apply map_Forall_empty.
Qed.

(** C9: the legacy AI Gateway pair, when both of its variables are set,
    overrides [ANTHROPIC_API_KEY] with the gateway key and publishes the
    base URL, stripped of every trailing slash, as both
    [AI_GATEWAY_BASE_URL] and [ANTHROPIC_BASE_URL]; when one of the pair is
    missing, a supplied [ANTHROPIC_BASE_URL] goes through unchanged. *)
Theorem buildEnvVars_legacy_gateway (env : MoltbotEnv) :
  let api := truthy (env !! "AI_GATEWAY_API_KEY") in
  let base := truthy (env !! "AI_GATEWAY_BASE_URL") in
  (∀ key url, api = Some key → base = Some url →
     buildEnvVars env !! "ANTHROPIC_API_KEY" = Some key ∧
     buildEnvVars env !! "AI_GATEWAY_BASE_URL" = Some (replace_trailing_slashes url) ∧
     buildEnvVars env !! "ANTHROPIC_BASE_URL" = Some (replace_trailing_slashes url) ∧
     (∃ n, url = replace_trailing_slashes url +:+ slashes n) ∧
     no_trailing_slash (replace_trailing_slashes url) = true) ∧
  (api = None ∨ base = None →
     buildEnvVars env !! "ANTHROPIC_BASE_URL" = truthy (env !! "ANTHROPIC_BASE_URL")).
Proof.
  intros api base. split.
  - intros key url Hkey Hbase. subst api base.
    unfold buildEnvVars. cbv zeta.
    rewrite !lookup_same_ne by done. rewrite !lookup_pass_ne by done.
    unfold legacy_ai_gateway. rewrite Hkey, Hbase. cbv zeta.
    rewrite lookup_insert_eq.
    rewrite (lookup_insert_ne _ "ANTHROPIC_API_KEY" "AI_GATEWAY_BASE_URL") by done.
    rewrite (lookup_insert_ne _ "ANTHROPIC_BASE_URL" "AI_GATEWAY_BASE_URL") by done.
    rewrite lookup_insert_eq.
    rewrite (lookup_insert_ne _ "ANTHROPIC_API_KEY" "ANTHROPIC_BASE_URL") by done.
    rewrite lookup_insert_eq.
    repeat split; auto using replace_trailing_slashes_suffix,
      replace_trailing_slashes_stripped.
  - intros Hmissing. subst api base.
    unfold buildEnvVars. cbv zeta.
    rewrite !lookup_same_ne by done. rewrite !lookup_pass_ne by done.
    assert (legacy_ai_gateway env
              (same env "OPENAI_API_KEY" (same env "ANTHROPIC_API_KEY"
                (same env "CF_AI_GATEWAY_GATEWAY_ID" (same env "CF_AI_GATEWAY_ACCOUNT_ID"
                  (same env "CLOUDFLARE_AI_GATEWAY_API_KEY" ∅)))))
            = same env "ANTHROPIC_BASE_URL"
              (same env "OPENAI_API_KEY" (same env "ANTHROPIC_API_KEY"
                (same env "CF_AI_GATEWAY_GATEWAY_ID" (same env "CF_AI_GATEWAY_ACCOUNT_ID"
                  (same env "CLOUDFLARE_AI_GATEWAY_API_KEY" ∅)))))) as ->.
    { unfold legacy_ai_gateway. destruct Hmissing as [-> | ->]; [done|].
      by destruct (truthy (env !! "AI_GATEWAY_API_KEY")). }
    apply lookup_same_None. by rewrite !lookup_same_ne by done.
Qed.

(** Both cases of [buildEnvVars_legacy_gateway] at concrete environments. *)
Lemma buildEnvVars_legacy_gateway_witness :
  buildEnvVars {[ "AI_GATEWAY_API_KEY" := "gw-key";
                  "AI_GATEWAY_BASE_URL" := "https://gw.example/v1//";
                  "ANTHROPIC_API_KEY" := "direct-key" ]} !! "ANTHROPIC_API_KEY"
    = Some "gw-key" ∧
  buildEnvVars {[ "AI_GATEWAY_API_KEY" := "gw-key";
                  "ANTHROPIC_BASE_URL" := "https://proxy.example/" ]} !! "ANTHROPIC_BASE_URL"
    = Some "https://proxy.example/".
Proof.
  split.
  - apply (buildEnvVars_legacy_gateway
             {[ "AI_GATEWAY_API_KEY" := "gw-key";
                "AI_GATEWAY_BASE_URL" := "https://gw.example/v1//";
                "ANTHROPIC_API_KEY" := "direct-key" ]})
      with (url := "https://gw.example/v1//"); vm_compute; reflexivity.
  - etrans.
    + apply (buildEnvVars_legacy_gateway
               {[ "AI_GATEWAY_API_KEY" := "gw-key";
                  "ANTHROPIC_BASE_URL" := "https://proxy.example/" ]}).
      right. vm_compute. reflexivity.
    + vm_compute. reflexivity.
Defined.

(** C6 at the input where it fails: with the legacy pair set and a base URL
    made of slashes only, the bundle carries two empty strings. *)
Theorem buildEnvVars_empty_base_url :
  let env : MoltbotEnv := {[ "AI_GATEWAY_API_KEY" := "k"; "AI_GATEWAY_BASE_URL" := "/" ]} in
  buildEnvVars env !! "ANTHROPIC_BASE_URL" = Some "" ∧
  buildEnvVars env !! "AI_GATEWAY_BASE_URL" = Some "" ∧
  ¬ nonempty_values (buildEnvVars env).
Proof.
  assert (H : buildEnvVars {[ "AI_GATEWAY_API_KEY" := "k"; "AI_GATEWAY_BASE_URL" := "/" ]}
              !! "ANTHROPIC_BASE_URL" = Some "") by (vm_compute; reflexivity).
  cbv zeta. split; [exact H|]. split; [vm_compute; reflexivity|].
  intros Hall. exact (Hall _ _ H eq_refl).
Qed.

(** *** What the bundle holds *)

Lemma lookup_pass env src dst (envVars : EnvVars) k :
  pass env src dst envVars !! k =
  if decide (dst = k) then
    match truthy (env !! src) with Some v => Some v | None => envVars !! k end
  else envVars !! k.
Proof.
  unfold pass. destruct (decide (dst = k)) as [->|Hne].
  - destruct (truthy (env !! src)); [by rewrite lookup_insert_eq | done].
  - destruct (truthy (env !! src)); [by rewrite lookup_insert_ne | done].
Qed.

Lemma lookup_legacy_ne env (envVars : EnvVars) k :
  k ≠ "AI_GATEWAY_BASE_URL" → k ≠ "ANTHROPIC_BASE_URL" → k ≠ "ANTHROPIC_API_KEY" →
  legacy_ai_gateway env envVars !! k = envVars !! k.
Proof.
  intros H1 H2 H3. unfold legacy_ai_gateway.
  destruct (truthy (env !! "AI_GATEWAY_API_KEY"));
    [destruct (truthy (env !! "AI_GATEWAY_BASE_URL"))|];
    cbv zeta; rewrite ?lookup_insert_ne by done; try done;
    by apply lookup_same_ne.
Qed.

(** Looks one name up in the bundle, assignment by assignment. *)
Ltac lookup_bundle :=
  unfold buildEnvVars, same; cbv zeta;
  repeat first
    [ rewrite lookup_pass_ne by done
    | rewrite lookup_legacy_ne by done
    | rewrite lookup_pass, decide_True by done ];
  rewrite ?lookup_empty.

(** X1: every variable of the table reaches the bundle under the name the
    table gives it, exactly when the worker holds it with a non-empty
    value, and with that value.  The gateway token and the dev-mode flag
    are the two that change their name. *)
Theorem buildEnvVars_copied env :
  Forall (λ '(src, dst), buildEnvVars env !! dst = truthy (env !! src)) copied.
Proof.
  unfold copied.
  repeat (apply Forall_cons; split;
          [lookup_bundle; by destruct (truthy (env !! _))|]).
  constructor.
Qed.

(** X2: the bundle holds no name but the three of the provider block and
    the names of the table.  So the worker's own names
    [MOLTBOT_GATEWAY_TOKEN], [DEV_MODE] and [AI_GATEWAY_API_KEY] never
    reach the container, nor does [OPENCLAW_GATEWAY_TOKEN]. *)
Theorem buildEnvVars_names env k :
  k ∉ bundle_names → buildEnvVars env !! k = None.
Proof.
  intros Hk.
  assert (Hne : ∀ n, n ∈ bundle_names → n ≠ k) by (intros n Hn ->; done).
  unfold buildEnvVars, same. cbv zeta.
  repeat first
    [ rewrite lookup_pass_ne
        by (apply Hne; vm_compute;
            repeat first [apply list_elem_of_here | apply list_elem_of_further])
    | rewrite lookup_legacy_ne
        by (apply not_eq_sym, Hne; vm_compute;
            repeat first [apply list_elem_of_here | apply list_elem_of_further]) ].
  apply lookup_empty.
Qed.

(** The worker's names for the gateway token and the dev-mode flag. *)
Lemma buildEnvVars_names_witness :
  let env : MoltbotEnv := {[ "MOLTBOT_GATEWAY_TOKEN" := "t0ken"; "DEV_MODE" := "true" ]} in
  buildEnvVars env !! "MOLTBOT_GATEWAY_TOKEN" = None ∧
  buildEnvVars env !! "DEV_MODE" = None.
Proof.
  intros env.
  split; apply buildEnvVars_names; apply (bool_decide_unpack _); by vm_compute.
Defined.

(** X3: without the legacy pair (the key or the base URL missing or
    empty) the direct Anthropic key goes through as the worker holds it,
    and a base URL of the legacy gateway that stands alone is dropped. *)
Theorem buildEnvVars_without_legacy env :
  truthy (env !! "AI_GATEWAY_API_KEY") = None ∨ truthy (env !! "AI_GATEWAY_BASE_URL") = None →
  buildEnvVars env !! "ANTHROPIC_API_KEY" = truthy (env !! "ANTHROPIC_API_KEY") ∧
  buildEnvVars env !! "AI_GATEWAY_BASE_URL" = None.
Proof.
  intros Hmissing.
  assert (Hlegacy : ∀ acc, legacy_ai_gateway env acc = same env "ANTHROPIC_BASE_URL" acc).
  { intros acc. unfold legacy_ai_gateway. destruct Hmissing as [-> | ->]; [done|].
    by destruct (truthy (env !! "AI_GATEWAY_API_KEY")). }
  unfold buildEnvVars. cbv zeta. rewrite Hlegacy. split.
  - lookup_bundle. by destruct (truthy (env !! "ANTHROPIC_API_KEY")).
  - lookup_bundle. done.
Qed.

(** A legacy base URL without its key, next to a direct key. *)
Lemma buildEnvVars_without_legacy_witness :
  let env : MoltbotEnv := {[ "AI_GATEWAY_BASE_URL" := "https://gw.example/";
                             "ANTHROPIC_API_KEY" := "sk-direct" ]} in
  buildEnvVars env !! "ANTHROPIC_API_KEY" = Some "sk-direct" ∧
  buildEnvVars env !! "AI_GATEWAY_BASE_URL" = None.
Proof.
  intros env.
  destruct (buildEnvVars_without_legacy env) as [Hkey Hurl].
  - left. vm_compute. reflexivity.
  - split; [rewrite Hkey; vm_compute; reflexivity | exact Hurl].
Defined.


Lemma buildEnvVars_r2 env :
  buildEnvVars env !! "R2_ACCESS_KEY_ID" = truthy (env !! "R2_ACCESS_KEY_ID") ∧
  buildEnvVars env !! "R2_SECRET_ACCESS_KEY" = truthy (env !! "R2_SECRET_ACCESS_KEY") ∧
  buildEnvVars env !! "CF_ACCOUNT_ID" = truthy (env !! "CF_ACCOUNT_ID").
Proof.
  repeat split; lookup_bundle; by destruct (truthy (env !! _)).
Qed.

End Env.

(** ** [src/gateway/process.ts] *)

Module Orchestrator.
Import Env.

(** A value caught by [catch]: an [Error] object with its message and
    optional [cause], or any other thrown value, kept as the string
    [String(err)] gives for it. *)
#[warnings="-register-all"]
Inductive JsError : Type :=
| ErrorObj (message : string) (cause : option JsError)
| Thrown (text : string).

(** What an [await] on the sandbox yields: a value, or a rejection. *)
Inductive Res (A : Type) : Type :=
| Ok (a : A)
| Throw (e : JsError).
Arguments Ok {A} a.
Arguments Throw {A} e.

(** The fields of the SDK's [Process] handle that the code reads. *)
Record Process : Type := mkProcess {
  id : string;
  command : string;
  status : string;
}.

Record Logs : Type := mkLogs {
  stdout : string;
  stderr : string;
}.

(** Calls made to the sandbox, in the order they are made.  The delay
    between retries is recorded with them. *)
Inductive Call : Type :=
| CallEnsureRcloneConfig
| CallListProcesses
| CallWaitForPort (p : Process) (port : Z) (mode : string) (timeout : Z)
| CallKill (p : Process)
| CallStartProcess (cmd : string) (env : option EnvVars)
| CallGetLogs (p : Process)
| CallSetTimeout (ms : Z).

Definition EXISTING_PROCESS_TIMEOUT_MS : Z := 15000.
Definition DO_RESET_RETRY_DELAY_MS : Z := 5000.
Definition DO_RESET_MAX_RETRIES : nat := 3.
Definition PROCESS_CACHE_TTL_MS : Z := 2000.

Definition isDurableObjectReset (err : JsError) : bool :=
  let msg := match err with
             | ErrorObj message _ => message
             | Thrown text => text
             end in
  includes "Durable Object reset" msg || includes "Network connection lost" msg.

(** The container runtime, as the orchestrator meets it: each operation
    answers from the runtime's own state [E] and moves it.
    [rt_ensureRcloneConfig] stands for [ensureRcloneConfig] of [./r2] and
    [rt_now] for [Date.now()]. *)
Record Sandbox (E : Type) : Type := mkSandbox {
  rt_now : E → Z * E;
  rt_ensureRcloneConfig : MoltbotEnv → E → Res unit * E;
  rt_listProcesses : E → Res (list Process) * E;
  rt_startProcess : string → option EnvVars → E → Res Process * E;
  rt_waitForPort : Process → Z → string → Z → E → Res unit * E;
  rt_kill : Process → E → Res unit * E;
  rt_getLogs : Process → E → Res Logs * E;
}.
Arguments rt_now {E} _ _.
Arguments rt_ensureRcloneConfig {E} _ _ _.
Arguments rt_listProcesses {E} _ _.
Arguments rt_startProcess {E} _ _ _ _.
Arguments rt_waitForPort {E} _ _ _ _ _ _.
Arguments rt_kill {E} _ _ _.
Arguments rt_getLogs {E} _ _ _.

(** The module-level cache, the calls made so far and the runtime. *)
Record World (E : Type) : Type := mkWorld {
  cachedProcess : option Process;
  cacheTimestamp : Z;
  calls : list Call;
  runtime : E;
}.
Arguments mkWorld {E} _ _ _ _.
Arguments cachedProcess {E} _.
Arguments cacheTimestamp {E} _.
Arguments calls {E} _.
Arguments runtime {E} _.

Section WithSandbox.

Context {E : Type}.
Variable sandbox : Sandbox E.
(** [MOLTBOT_PORT] and [STARTUP_TIMEOUT_MS] come from [../config]. *)
Variable MOLTBOT_PORT : Z.
Variable STARTUP_TIMEOUT_MS : Z.

(** Asynchronous code over the world; a rejection keeps the effects made
    before it. *)
Definition M (A : Type) : Type := World E → Res A * World E.

Definition ret {A} (a : A) : M A := λ w, (Ok a, w).
Definition throw {A} (e : JsError) : M A := λ w, (Throw e, w).
Definition bind {A B} (m : M A) (k : A → M B) : M B :=
  λ w, match m w with
       | (Ok a, w') => k a w'
       | (Throw e, w') => (Throw e, w')
       end.
Definition try_catch {A} (body : M A) (handler : JsError → M A) : M A :=
  λ w, match body w with
       | (Ok a, w') => (Ok a, w')
       | (Throw e, w') => handler e w'
       end.

Notation "'let*' x ':=' m 'in' k" := (bind m (λ x, k))
  (at level 10, x name, m at level 100, k at level 200, only parsing).

(** One call to the sandbox: it is logged, answered by the runtime, and
    the runtime moves on. *)
Definition call {A} (c : Call) (op : E → Res A * E) : M A :=
  λ w, let '(r, rt') := op (runtime w) in
       (r, mkWorld (cachedProcess w) (cacheTimestamp w) (calls w ++ [c]) rt').

Definition dateNow : M Z :=
  λ w, let '(t, rt') := rt_now sandbox (runtime w) in
       (Ok t, mkWorld (cachedProcess w) (cacheTimestamp w) (calls w) rt').

Definition setCache (p : option Process) (t : Z) : M unit :=
  λ w, (Ok tt, mkWorld p t (calls w) (runtime w)).

Definition getCache : M (option Process * Z) :=
  λ w, (Ok (cachedProcess w, cacheTimestamp w), w).

Definition invalidateProcessCache : M unit := setCache None 0.

Definition listProcesses : M (list Process) :=
  call CallListProcesses (rt_listProcesses sandbox).
Definition startProcess (cmd : string) (env : option EnvVars) : M Process :=
  call (CallStartProcess cmd env) (rt_startProcess sandbox cmd env).
Definition waitForPort (p : Process) (port : Z) (mode : string) (timeout : Z) : M unit :=
  call (CallWaitForPort p port mode timeout) (rt_waitForPort sandbox p port mode timeout).
Definition kill (p : Process) : M unit :=
  call (CallKill p) (rt_kill sandbox p).
Definition getLogs (p : Process) : M Logs :=
  call (CallGetLogs p) (rt_getLogs sandbox p).
Definition ensureRcloneConfig (env : MoltbotEnv) : M unit :=
  call CallEnsureRcloneConfig (rt_ensureRcloneConfig sandbox env).
(** [await new Promise((r) => setTimeout(r, ms))] *)
Definition sleep (ms : Z) : M unit :=
  λ w, (Ok tt, mkWorld (cachedProcess w) (cacheTimestamp w)
                       (calls w ++ [CallSetTimeout ms]) (runtime w)).

Definition isActive (p : Process) : bool :=
  bool_decide (status p = "starting") || bool_decide (status p = "running").

Definition isGatewayProcess (p : Process) : bool :=
  includes "start-openclaw.sh" (command p) ||
  includes "openclaw gateway" (command p) ||
  includes "start-moltbot.sh" (command p) ||
  includes "clawdbot gateway" (command p).

Definition isCliCommand (p : Process) : bool :=
  includes "openclaw devices" (command p) ||
  includes "openclaw --version" (command p) ||
  includes "openclaw onboard" (command p) ||
  includes "clawdbot devices" (command p) ||
  includes "clawdbot --version" (command p).

(** The first process the [for] loop returns from. *)
Definition firstGateway (processes : list Process) : option Process :=
  List.find (λ proc, isGatewayProcess proc && negb (isCliCommand proc) && isActive proc)
            processes.

(** The head of [findExistingMoltbotProcess]: the cached process when the
    entry is fresh and still active; a fresh entry that is no longer active
    is dropped. *)
Definition cachedIfFresh : M (option Process) :=
  let* now := dateNow in
  let* c := getCache in
  match c with
  | (Some cached, timestamp) =>
      if (now - timestamp <? PROCESS_CACHE_TTL_MS)%Z then
        if bool_decide (status cached = "running") || bool_decide (status cached = "starting")
        then ret (Some cached)
        else let* _ := invalidateProcessCache in ret None
      else ret None
  | (None, _) => ret None
  end.

Definition findExistingMoltbotProcess : M (option Process) :=
  let* cached := cachedIfFresh in
  match cached with
  | Some p => ret (Some p)
  | None =>
      let* found :=
        try_catch
          (let* processes := listProcesses in
           match firstGateway processes with
           | Some proc =>
               let* t := dateNow in
               let* _ := setCache (Some proc) t in
               ret (Some proc)
           | None => ret None
           end)
          (λ e, if isDurableObjectReset e then throw e else ret None) in
      match found with
      | Some proc => ret (Some proc)
      | None =>
          (* Cache the null result too *)
          let* t := dateNow in
          let* _ := setCache None t in
          ret None
      end
  end.

(** The [if (existingProcess)] block of [_ensureMoltbotGatewayOnce]:
    [Some p] when the function returns [p] from it. *)
Definition probeExisting (existingProcess : Process) : M (option Process) :=
  try_catch
    (let* _ := waitForPort existingProcess MOLTBOT_PORT "tcp" EXISTING_PROCESS_TIMEOUT_MS in
     ret (Some existingProcess))
    (λ _e,
       let* _ :=
         try_catch
           (let* _ := kill existingProcess in invalidateProcessCache)
           (λ killError,
              if isDurableObjectReset killError then throw killError else ret tt) in
       ret None).

Definition orEmpty (s : string) : string :=
  if decide (s = "") then "(empty)" else s.

(** The timer set before the wait for a fresh gateway:
    [setTimeout(callback, 20_000)]. *)
Definition EARLY_LOG_DELAY_MS : Z := 20000.

(** The clock of the runtime, which [Date.now()] reads. *)
Definition clock (w : World E) : Z := fst (rt_now sandbox (runtime w)).

(** The callback of [earlyLogTimer]: it fetches the logs of the process
    for the console, and ignores a rejection. *)
Definition earlyLogs (process : Process) : M unit :=
  try_catch (let* _earlyLogs := getLogs process in ret tt) (λ _, ret tt).

(** [earlyLogTimer]: set at some time and not yet run, or out of the way
    (run, or cleared). *)
Inductive Timer : Type :=
| Pending (setAt : Z)
| Gone.

(** [await m] with the timer as it stands.  A pending timer whose 20
    seconds are over by the time [m] settles has run meanwhile: its call
    to [getLogs] comes after the call of [m].  The outcome of [m] is
    handed on, with the timer as it stands then. *)
Definition awaiting {A} (timer : Timer) (process : Process) (m : M A)
  : M (Res A * Timer) :=
  λ w, let '(r, w1) := m w in
       match timer with
       | Pending setAt =>
           if (EARLY_LOG_DELAY_MS <=? clock w1 - setAt)%Z
           then let '(_, w2) := earlyLogs process w1 in (Ok (r, Gone), w2)
           else (Ok (r, timer), w1)
       | Gone => (Ok (r, Gone), w1)
       end.

(** What an awaited call settled as, taken up again: its value, or a
    [throw]. *)
Definition settled {A} (r : Res A) : M A :=
  match r with
  | Ok a => ret a
  | Throw e => throw e
  end.

(** The rest of [_ensureMoltbotGatewayOnce], from "Start a new OpenClaw
    gateway".  The early-log timer is set before the wait and cleared
    only when the wait resolves; while it is pending it can run during
    the wait and, after a rejected wait, during the [getLogs] of the
    [catch].  A timer still pending when the function throws runs after
    it; that is outside this function.  Of what the callback does, the
    call to [getLogs] is modelled; the console is not. *)
Definition startNewGateway (env : MoltbotEnv) : M Process :=
  let envVars := buildEnvVars env in
  let command := "/usr/local/bin/start-openclaw.sh" in
  let* process :=
    try_catch
      (let* process := startProcess command
                         (if decide (envVars = ∅) then None else Some envVars) in
       let* _ := invalidateProcessCache in
       ret process)
      (λ startErr, throw startErr) in
  (* catch (e), entered with the timer as it stands *)
  let failed (timer : Timer) (e : JsError) : M Process :=
    if isDurableObjectReset e then throw e else
    try_catch
      (let* fetched := awaiting timer process (getLogs process) in
       let* logs := settled (fst fetched) in
       throw (ErrorObj ("OpenClaw gateway failed to start. Stderr: "
                        +:+ orEmpty (stderr logs)) (Some e)))
      (λ logErr,
         if isDurableObjectReset logErr then throw logErr else throw e) in
  (* const earlyLogTimer = setTimeout(..., 20_000) *)
  let* setAt := (λ w, (Ok (clock w), w)) in
  let* waited := awaiting (Pending setAt) process
                   (waitForPort process MOLTBOT_PORT "tcp" STARTUP_TIMEOUT_MS) in
  match waited with
  | (Throw e, timer) => failed timer e
  | (Ok _, _) =>
      (* clearTimeout(earlyLogTimer) *)
      try_catch (let* _logs := getLogs process in ret process) (failed Gone)
  end.

(** The runtime once the early-log timer has had its chance: when the
    wait that began in [rt1] has ended in [rt2] twenty seconds later or
    more, the callback has fetched the logs meanwhile. *)
Definition afterEarlyLogs (process : Process) (rt1 rt2 : E) : E :=
  if (EARLY_LOG_DELAY_MS <=? fst (rt_now sandbox rt2) - fst (rt_now sandbox rt1))%Z
  then snd (rt_getLogs sandbox process rt2)
  else rt2.

Definition _ensureMoltbotGatewayOnce (env : MoltbotEnv) : M Process :=
  let* _ := ensureRcloneConfig env in
  let* existingProcess := findExistingMoltbotProcess in
  let* reused := match existingProcess with
                 | Some p => probeExisting p
                 | None => ret None
                 end in
  match reused with
  | Some p => ret p
  | None => startNewGateway env
  end.

(** The [for] loop of [ensureMoltbotGateway], entered with [attempt] and
    [remaining] iterations to go before [attempt <= DO_RESET_MAX_RETRIES]
    fails. *)
Fixpoint ensureLoop (env : MoltbotEnv) (attempt remaining : nat) : M Process :=
  match remaining with
  | O => throw (ErrorObj "Exhausted DO reset retries" None)
  | S remaining' =>
      try_catch (_ensureMoltbotGatewayOnce env)
        (λ e,
           if isDurableObjectReset e && (attempt <? DO_RESET_MAX_RETRIES)%nat then
             let* _ := sleep DO_RESET_RETRY_DELAY_MS in
             ensureLoop env (S attempt) remaining'
           else throw e)
  end.

Definition ensureMoltbotGateway (env : MoltbotEnv) : M Process :=
  ensureLoop env 0 (S DO_RESET_MAX_RETRIES).

(** The world in which attempt number [k] (counted from 0) starts when
    every attempt before it was retried, and what that attempt yields. *)
Fixpoint attemptWorld (env : MoltbotEnv) (k : nat) (w : World E) : World E :=
  match k with
  | O => w
  | S k' =>
      snd (sleep DO_RESET_RETRY_DELAY_MS
             (snd (_ensureMoltbotGatewayOnce env (attemptWorld env k' w))))
  end.

Definition attemptResult (env : MoltbotEnv) (k : nat) (w : World E)
  : Res Process * World E :=
  _ensureMoltbotGatewayOnce env (attemptWorld env k w).

(** The delays requested through [setTimeout], oldest first. *)
Fixpoint delays (cs : list Call) : list Z :=
  match cs with
  | [] => []
  | CallSetTimeout ms :: rest => ms :: delays rest
  | _ :: rest => delays rest
  end.

Definition isStartProcess (c : Call) : bool :=
  match c with
  | CallStartProcess _ _ => true
  | _ => false
  end.

(** The attempt is retried: it failed with the reset signature. *)
Definition retried (r : Res Process) : Prop :=
  ∃ e, r = Throw e ∧ isDurableObjectReset e = true.

(** The attempt ends the loop when it is attempt number [k]. *)
Definition final (k : nat) (r : Res Process) : Prop :=
  match r with
  | Ok _ => True
  | Throw e => isDurableObjectReset e = false ∨ k = DO_RESET_MAX_RETRIES
  end.

End WithSandbox.

(** A runtime that answers from a fixed script.  Its state counts the
    calls to [ensureRcloneConfig]; the first [resets] of them are rejected
    with a Durable Object reset. *)
Definition scripted (resets : nat) (table : Res (list Process))
    (port : Res unit) (killed : Res unit) (started : Res Process)
    (logs : Res Logs) : Sandbox nat :=
  {| rt_now := λ n, (1000 * Z.of_nat n, n)%Z;
     rt_ensureRcloneConfig := λ _ n,
       (if (n <? resets)%nat
        then Throw (ErrorObj "Durable Object reset because its code was updated." None)
        else Ok tt, S n);
     rt_listProcesses := λ n, (table, n);
     rt_startProcess := λ _ _ n, (started, n);
     rt_waitForPort := λ _ _ _ _ n, (port, n);
     rt_kill := λ _ n, (killed, n);
     rt_getLogs := λ _ n, (logs, n) |}.

Definition world0 : World nat := mkWorld None 0 [] 0%nat.

(** A runtime with a clock.  Its state is the time in milliseconds and
    the number of times the logs have been fetched; a wait for a port takes
    [wait] milliseconds, and the logs can be fetched [fetches] times, after
    which [getLogs] is rejected. *)
Definition clocked (wait : Z) (fetches : nat) (table : Res (list Process))
    (port : Res unit) (killed : Res unit) (started : Res Process)
    (logs : Res Logs) : Sandbox (Z * nat) :=
  {| rt_now := λ s, (fst s, s);
     rt_ensureRcloneConfig := λ _ s, (Ok tt, s);
     rt_listProcesses := λ s, (table, s);
     rt_startProcess := λ _ _ s, (started, s);
     rt_waitForPort := λ _ _ _ _ s, (port, ((fst s + wait)%Z, snd s));
     rt_kill := λ _ s, (killed, s);
     rt_getLogs := λ _ s,
       (if (snd s <? fetches)%nat then logs else Throw (Thrown "logs unavailable"),
        (fst s, S (snd s))) |}.

Definition clock0 : World (Z * nat) := mkWorld None 0 [] (0%Z, 0%nat).

Definition gatewayProc : Process :=
  mkProcess "proc-1" "/usr/local/bin/start-openclaw.sh" "running".

Definition freshProc : Process :=
  mkProcess "proc-2" "/usr/local/bin/start-openclaw.sh" "starting".

Definition portTimeout : JsError := ErrorObj "Timed out waiting for port 18789" None.

Definition resetError : JsError :=
  ErrorObj "Durable Object reset because its code was updated." None.

(** How many times [ensureRcloneConfig] was called, that is, how many
    attempts were begun. *)
Fixpoint attempts (cs : list Call) : nat :=
  match cs with
  | [] => 0
  | CallEnsureRcloneConfig :: rest => S (attempts rest)
  | _ :: rest => attempts rest
  end.

(** *** Facts about the orchestrator *)

Section Facts.

Context {E : Type}.
Variable sandbox : Sandbox E.
Variable MOLTBOT_PORT : Z.
Variable STARTUP_TIMEOUT_MS : Z.

Abbreviation once := (_ensureMoltbotGatewayOnce sandbox MOLTBOT_PORT STARTUP_TIMEOUT_MS).
Abbreviation ensure := (ensureMoltbotGateway sandbox MOLTBOT_PORT STARTUP_TIMEOUT_MS).
Abbreviation loop := (ensureLoop sandbox MOLTBOT_PORT STARTUP_TIMEOUT_MS).
Abbreviation startNew := (startNewGateway sandbox MOLTBOT_PORT STARTUP_TIMEOUT_MS).
Abbreviation attemptW := (attemptWorld sandbox MOLTBOT_PORT STARTUP_TIMEOUT_MS).
Abbreviation attemptR := (attemptResult sandbox MOLTBOT_PORT STARTUP_TIMEOUT_MS).

Lemma delays_app cs cs' : delays (cs ++ cs') = delays cs ++ delays cs'.
Proof.
  induction cs as [|c cs IH]; [done|]. destruct c; cbn; by rewrite ?IH.
Qed.

Lemma bind_Ok {A B} (m : M A) (k : A → M B) (w w' : World E) a :
  m w = (Ok a, w') → bind m k w = k a w'.
Proof. intros H. unfold bind. by rewrite H. Qed.

Lemma bind_Throw {A B} (m : M A) (k : A → M B) (w w' : World E) e :
  m w = (Throw e, w') → bind m k w = (Throw e, w').
Proof. intros H. unfold bind. by rewrite H. Qed.

Lemma try_catch_Ok {A} (m : M A) (h : JsError → M A) (w w' : World E) a :
  m w = (Ok a, w') → try_catch m h w = (Ok a, w').
Proof. intros H. unfold try_catch. by rewrite H. Qed.

Lemma try_catch_Throw {A} (m : M A) (h : JsError → M A) (w w' : World E) e :
  m w = (Throw e, w') → try_catch m h w = h e w'.
Proof. intros H. unfold try_catch. by rewrite H. Qed.

(** Unfolds the monad and splits on every answer of the runtime. *)
Ltac step_all :=
  repeat (cbn [fst snd calls cachedProcess cacheTimestamp runtime] in *;
          match goal with
          | |- context [match ?x with _ => _ end] =>
              lazymatch x with
              | context [match _ with _ => _ end] => fail
              | _ => destruct x eqn:?
              end
          | |- context [if ?b then _ else _] =>
              lazymatch b with
              | context [if _ then _ else _] => fail
              | context [match _ with _ => _ end] => fail
              | _ => destruct b eqn:?
              end
          end).

Ltac unfold_m :=
  unfold awaiting, earlyLogs, settled, clock in *;
  unfold invalidateProcessCache, listProcesses, startProcess, waitForPort, kill,
    getLogs, ensureRcloneConfig in *;
  unfold bind, try_catch, ret, throw, call, dateNow, setCache, getCache, sleep in *.

(** A single attempt requests no delay. *)
Lemma once_delays env w : delays (calls (snd (once env w))) = delays (calls w).
Proof.
  unfold _ensureMoltbotGatewayOnce, findExistingMoltbotProcess, cachedIfFresh,
    probeExisting, startNewGateway. unfold_m.
  step_all; cbn; rewrite ?delays_app; cbn; rewrite ?app_nil_r; reflexivity.
Qed.

(** Starting a new gateway begins with [startProcess] on the startup
    entrypoint. *)
Lemma startNewGateway_first_call env w :
  ∃ rest, calls (snd (startNew env w)) =
          calls w ++ CallStartProcess "/usr/local/bin/start-openclaw.sh"
                       (if decide (buildEnvVars env = ∅) then None
                        else Some (buildEnvVars env)) :: rest.
Proof.
  unfold startNewGateway. unfold_m.
  step_all; cbn; rewrite <- ?app_assoc; cbn; eauto.
Qed.

(** Whatever [findExistingMoltbotProcess] returns is starting or running. *)
Lemma findExistingMoltbotProcess_active w w' p :
  findExistingMoltbotProcess sandbox w = (Ok (Some p), w') → isActive p = true.
Proof.
  unfold findExistingMoltbotProcess, cachedIfFresh, firstGateway. unfold_m.
  intros H. revert H.
  step_all; intros [= <- <-]; try discriminate;
    repeat match goal with
           | H : Ok _ = Ok _ |- _ => injection H as H; subst
           | H : (_, _) = (_, _) |- _ => injection H as ? ?; subst
           end.
  all: try (unfold isActive; rewrite orb_comm; assumption).
  all: match goal with
       | H : List.find _ _ = Some _ |- _ =>
           apply find_some in H as [_ H]; apply andb_true_iff in H as [_ H]; exact H
       end.
Qed.

Lemma attemptWorld_S env k w :
  attemptW env (S k) w =
  attemptW env k (snd (sleep DO_RESET_RETRY_DELAY_MS (snd (once env w)))).
Proof.
  induction k as [|k IH]; [done|].
  change (attemptW env (S (S k)) w)
    with (snd (sleep DO_RESET_RETRY_DELAY_MS (snd (once env (attemptW env (S k) w))))).
  by rewrite IH.
Qed.

Lemma attemptWorld_delays env k w :
  delays (calls (attemptW env k w)) =
  delays (calls w) ++ repeat DO_RESET_RETRY_DELAY_MS k.
Proof.
  induction k as [|k IH]; cbn [attemptWorld repeat].
  - by rewrite app_nil_r.
  - unfold sleep. cbn. rewrite delays_app, once_delays, IH. cbn.
    rewrite <- app_assoc. f_equal. symmetry. apply repeat_cons.
Qed.

Lemma final_or_retried k r :
  final k r ∨ (retried r ∧ k ≠ DO_RESET_MAX_RETRIES).
Proof.
  destruct r as [p|e]; [by left|]. cbn.
  destruct (isDurableObjectReset e) eqn:He; [|by left; left].
  destruct (decide (k = DO_RESET_MAX_RETRIES)) as [->|Hk]; [by left; right|].
  right. split; [by exists e|done].
Qed.

(** The loop entered at [attempt] ends with the first attempt that is not
    retried. *)
Lemma ensureLoop_attempts env (k : nat) : ∀ (attempt remaining : nat) (w : World E),
  (attempt + remaining = S DO_RESET_MAX_RETRIES)%nat →
  (attempt + k ≤ DO_RESET_MAX_RETRIES)%nat →
  (∀ i, (i < k)%nat → retried (fst (attemptR env i w))) →
  final (attempt + k)%nat (fst (attemptR env k w)) →
  loop env attempt remaining w = attemptR env k w.
Proof.
  unfold attemptResult.
  induction k as [|k IH]; intros attempt remaining w Hsum Hle Hretried Hfinal.
  - destruct remaining as [|remaining]; [unfold DO_RESET_MAX_RETRIES in *; lia|].
    cbn [attemptWorld ensureLoop] in *. rewrite Nat.add_0_r in Hfinal.
    unfold try_catch. destruct (once env w) as [[p|e] w']; [done|].
    cbn in Hfinal. destruct Hfinal as [-> | ->]; [done|].
    by rewrite andb_false_r.
  - destruct remaining as [|remaining]; [unfold DO_RESET_MAX_RETRIES in *; lia|].
    destruct (Hretried 0 ltac:(lia)) as (e & He & Hreset).
    cbn [attemptWorld] in He.
    rewrite attemptWorld_S. rewrite <- (IH (S attempt) remaining).
    + cbn [ensureLoop]. unfold try_catch at 1.
      destruct (once env w) as [r w'] eqn:Honce. cbn in He. subst r.
      rewrite Hreset. cbn [andb].
      replace (attempt <? DO_RESET_MAX_RETRIES)%nat with true
        by (symmetry; apply Nat.ltb_lt; lia).
      reflexivity.
    + lia.
    + lia.
    + intros i Hi. rewrite <- attemptWorld_S. apply Hretried. lia.
    + rewrite <- attemptWorld_S. by replace (S attempt + k) with (attempt + S k) by lia.
Qed.

(** C3: the attempts of [ensureMoltbotGateway].  Some attempt among the
    first four ends the loop; it is the first one that succeeds, or fails
    without the reset signature, or is the fourth.  The caller gets that
    attempt's outcome, and one 5-second delay was requested after each
    attempt before it. *)
Theorem ensureMoltbotGateway_retries env w :
  (∃ k, k ≤ DO_RESET_MAX_RETRIES ∧
        (∀ i, i < k → retried (fst (attemptR env i w))) ∧
        final k (fst (attemptR env k w))) ∧
  (∀ k, k ≤ DO_RESET_MAX_RETRIES →
        (∀ i, i < k → retried (fst (attemptR env i w))) →
        final k (fst (attemptR env k w)) →
        ensure env w = attemptR env k w ∧
        delays (calls (snd (ensure env w))) =
          delays (calls w) ++ repeat 5000%Z k).
Proof.
  split.
  - destruct (final_or_retried 0 (fst (attemptR env 0 w))) as [H0|[H0 _]].
    { exists 0. split; [unfold DO_RESET_MAX_RETRIES; lia|]. split; [lia|done]. }
    destruct (final_or_retried 1 (fst (attemptR env 1 w))) as [H1|[H1 _]].
    { exists 1. split; [unfold DO_RESET_MAX_RETRIES; lia|]. split; [|done].
      intros [|i] Hi; [done|lia]. }
    destruct (final_or_retried 2 (fst (attemptR env 2 w))) as [H2|[H2 _]].
    { exists 2. split; [unfold DO_RESET_MAX_RETRIES; lia|]. split; [|done].
      intros [|[|i]] Hi; [done|done|lia]. }
    destruct (final_or_retried 3 (fst (attemptR env 3 w))) as [H3|[_ H3]].
    { exists 3. split; [unfold DO_RESET_MAX_RETRIES; lia|]. split; [|done].
      intros [|[|[|i]]] Hi; [done|done|done|lia]. }
    by destruct H3.
  - intros k Hk Hretried Hfinal.
    assert (Heq : ensure env w = attemptR env k w).
    { apply ensureLoop_attempts; [done|lia|done|done]. }
    split; [done|]. rewrite Heq. unfold attemptResult.
    rewrite once_delays. apply attemptWorld_delays.
Qed.

(** C10: when the enumeration of the process table is rejected, a
    rejection carrying the reset signature is passed on; any other leaves
    [null] in the cache, stamped with the current time, and [null] is
    returned, so that the attempt goes on to start a new gateway. *)
Theorem findExistingMoltbotProcess_enumeration_fails w w1 w2 e :
  cachedIfFresh sandbox w = (Ok None, w1) →
  listProcesses sandbox w1 = (Throw e, w2) →
  if isDurableObjectReset e
  then findExistingMoltbotProcess sandbox w = (Throw e, w2)
  else ∃ w3,
      findExistingMoltbotProcess sandbox w = (Ok None, w3) ∧
      cachedProcess w3 = None ∧
      cacheTimestamp w3 = fst (rt_now sandbox (runtime w2)) ∧
      calls w3 = calls w2 ∧
      ∀ env w0, ensureRcloneConfig sandbox env w0 = (Ok tt, w) →
        once env w0 = startNew env w3 ∧
        ∃ rest, calls (snd (once env w0)) =
                calls w2 ++ CallStartProcess "/usr/local/bin/start-openclaw.sh"
                              (if decide (buildEnvVars env = ∅) then None
                               else Some (buildEnvVars env)) :: rest.
Proof.
  intros Hcache Hlist.
  assert (Hfound : ∀ k : list Process → M (option Process),
            try_catch (bind (listProcesses sandbox) k)
              (λ e, if isDurableObjectReset e then throw e else ret None) w1
            = (if isDurableObjectReset e then throw e else ret None) w2).
  { intros k. erewrite try_catch_Throw; [reflexivity|].
    by erewrite bind_Throw. }
  unfold findExistingMoltbotProcess.
  erewrite bind_Ok by exact Hcache. cbn beta iota.
  destruct (isDurableObjectReset e) eqn:He.
  - erewrite bind_Throw; [reflexivity|]. by rewrite Hfound.
  - destruct (rt_now sandbox (runtime w2)) as [t rt'] eqn:Hnow.
    assert (Hfind : findExistingMoltbotProcess sandbox w
                    = (Ok None, mkWorld None t (calls w2) rt')).
    { unfold findExistingMoltbotProcess.
      erewrite bind_Ok by exact Hcache. cbn beta iota.
      erewrite bind_Ok; [|rewrite Hfound; reflexivity]. cbn beta iota.
      unfold bind, dateNow, setCache, ret. by rewrite Hnow. }
    unfold findExistingMoltbotProcess in Hfind.
    erewrite bind_Ok in Hfind by exact Hcache. cbn beta iota in Hfind.
    eexists. split; [exact Hfind|]. cbn. repeat split.
    + unfold _ensureMoltbotGatewayOnce.
      erewrite bind_Ok by exact H. erewrite bind_Ok.
      2:{ unfold findExistingMoltbotProcess.
          erewrite bind_Ok by exact Hcache. exact Hfind. }
      reflexivity.
    + unfold _ensureMoltbotGatewayOnce.
      erewrite bind_Ok by exact H. erewrite bind_Ok.
      2:{ unfold findExistingMoltbotProcess.
          erewrite bind_Ok by exact Hcache. exact Hfind. }
      cbn beta iota. unfold bind at 1, ret at 1.
      apply (startNewGateway_first_call env (mkWorld None t (calls w2) rt')).
Qed.

(** C4, as the code has it: when an attempt finds an existing process, the
    process is starting or running and is probed on the gateway port for 15
    seconds.  If the probe answers, that process is returned and nothing
    else is called.  If the probe fails, [kill] is called on the process
    and then, unless the kill itself is rejected with the reset signature
    (which is thrown), the attempt goes on as a fresh start does: its next
    call is [startProcess] on the startup entrypoint.  The error of the
    probe plays no part in the outcome. *)
Theorem ensureOnce_existing_process env w w0 w1 p :
  ensureRcloneConfig sandbox env w = (Ok tt, w0) →
  findExistingMoltbotProcess sandbox w0 = (Ok (Some p), w1) →
  isActive p = true ∧
  let probe := CallWaitForPort p MOLTBOT_PORT "tcp" 15000 in
  let start := CallStartProcess "/usr/local/bin/start-openclaw.sh"
                 (if decide (buildEnvVars env = ∅) then None
                  else Some (buildEnvVars env)) in
  match rt_waitForPort sandbox p MOLTBOT_PORT "tcp" 15000 (runtime w1) with
  | (Ok _, rt2) =>
      once env w = (Ok p, mkWorld (cachedProcess w1) (cacheTimestamp w1)
                            (calls w1 ++ [probe]) rt2)
  | (Throw _, rt2) =>
      match rt_kill sandbox p rt2 with
      | (Ok _, rt3) =>
          once env w = startNew env (mkWorld None 0 (calls w1 ++ [probe; CallKill p]) rt3) ∧
          ∃ rest, calls (snd (once env w)) = calls w1 ++ [probe; CallKill p; start] ++ rest
      | (Throw killError, rt3) =>
          let w3 := mkWorld (cachedProcess w1) (cacheTimestamp w1)
                      (calls w1 ++ [probe; CallKill p]) rt3 in
          if isDurableObjectReset killError
          then once env w = (Throw killError, w3)
          else once env w = startNew env w3 ∧
               ∃ rest, calls (snd (once env w))
                       = calls w1 ++ [probe; CallKill p; start] ++ rest
      end
  end.
Proof.
  intros Hrclone Hfind. split; [by eapply findExistingMoltbotProcess_active|].
  cbv zeta. unfold _ensureMoltbotGatewayOnce.
  erewrite bind_Ok by exact Hrclone. erewrite bind_Ok by exact Hfind.
  cbn beta iota. unfold probeExisting. unfold_m.
  unfold EXISTING_PROCESS_TIMEOUT_MS.
  destruct (rt_waitForPort sandbox p MOLTBOT_PORT "tcp" 15000 (runtime w1))
    as [[[]|e] rt2]; cbn; [done|].
  destruct (rt_kill sandbox p rt2) as [[[]|killError] rt3]; cbn;
    rewrite <- ?app_assoc; cbn.
  - split; [done|].
    destruct (startNewGateway_first_call env
                (mkWorld None 0 (calls w1 ++ [CallWaitForPort p MOLTBOT_PORT "tcp" 15000;
                                              CallKill p]) rt3)) as [rest Hrest].
    exists rest. rewrite Hrest. cbn. by rewrite <- app_assoc.
  - destruct (isDurableObjectReset killError); [done|]. split; [done|].
    destruct (startNewGateway_first_call env
                (mkWorld (cachedProcess w1) (cacheTimestamp w1)
                   (calls w1 ++ [CallWaitForPort p MOLTBOT_PORT "tcp" 15000;
                                 CallKill p]) rt3)) as [rest Hrest].
    exists rest. rewrite Hrest. cbn. by rewrite <- app_assoc.
Qed.

End Facts.

(** *** The orchestrator on scripted runtimes *)

(** The scenario of C3: two resets and then a reachable gateway; and four
    resets in a row. *)
Lemma ensureMoltbotGateway_retries_witness :
  let twice := scripted 2 (Ok [gatewayProc]) (Ok tt) (Ok tt) (Ok freshProc)
                        (Ok (mkLogs "" "")) in
  let always := scripted 4 (Ok [gatewayProc]) (Ok tt) (Ok tt) (Ok freshProc)
                         (Ok (mkLogs "" "")) in
  (fst (ensureMoltbotGateway twice 18789 180000 ∅ world0) = Ok gatewayProc ∧
   delays (calls (snd (ensureMoltbotGateway twice 18789 180000 ∅ world0)))
     = [5000; 5000]%Z) ∧
  (fst (ensureMoltbotGateway always 18789 180000 ∅ world0) = Throw resetError ∧
   delays (calls (snd (ensureMoltbotGateway always 18789 180000 ∅ world0)))
     = [5000; 5000; 5000]%Z).
Proof.
  cbv zeta. split.
  - destruct (proj2 (ensureMoltbotGateway_retries
                       (scripted 2 (Ok [gatewayProc]) (Ok tt) (Ok tt) (Ok freshProc)
                                 (Ok (mkLogs "" "")))
                       18789 180000 ∅ world0) 2) as [Hres Hdelays].
    + unfold DO_RESET_MAX_RETRIES. lia.
    + intros [|[|i]] Hi; [| |lia]; exists resetError; split; vm_compute; reflexivity.
    + vm_compute. exact I.
    + split; [rewrite Hres; vm_compute; reflexivity | exact Hdelays].
  - destruct (proj2 (ensureMoltbotGateway_retries
                       (scripted 4 (Ok [gatewayProc]) (Ok tt) (Ok tt) (Ok freshProc)
                                 (Ok (mkLogs "" "")))
                       18789 180000 ∅ world0) 3) as [Hres Hdelays].
    + unfold DO_RESET_MAX_RETRIES. lia.
    + intros [|[|[|i]]] Hi; [| | |lia]; exists resetError; split; vm_compute; reflexivity.
    + vm_compute. by right.
    + split; [rewrite Hres; vm_compute; reflexivity | exact Hdelays].
Defined.

(** A process table that cannot be listed, for a reason other than a
    reset. *)
Lemma findExistingMoltbotProcess_enumeration_fails_witness :
  let sb := scripted 0 (Throw (ErrorObj "sandbox unavailable" None)) (Ok tt) (Ok tt)
                     (Ok freshProc) (Ok (mkLogs "" "")) in
  findExistingMoltbotProcess sb world0
    = (Ok None, mkWorld None 0 [CallListProcesses] 0).
Proof.
  cbv zeta.
  pose proof (findExistingMoltbotProcess_enumeration_fails
                (scripted 0 (Throw (ErrorObj "sandbox unavailable" None)) (Ok tt) (Ok tt)
                          (Ok freshProc) (Ok (mkLogs "" "")))
                18789 180000 world0 world0
                (mkWorld None 0 [CallListProcesses] 0)
                (ErrorObj "sandbox unavailable" None) eq_refl eq_refl) as H.
  destruct H as (w3 & Hfind & _). rewrite Hfind. vm_compute in Hfind.
  injection Hfind as <-. reflexivity.
Defined.

(** A stuck gateway whose probe times out and whose kill succeeds: the
    entrypoint is started next. *)
Lemma ensureOnce_existing_process_witness :
  let sb := scripted 0 (Ok [gatewayProc]) (Throw portTimeout) (Ok tt)
                     (Throw (Thrown "no capacity")) (Ok (mkLogs "" "")) in
  isActive gatewayProc = true ∧
  ∃ rest,
    calls (snd (_ensureMoltbotGatewayOnce sb 18789 180000 ∅ world0)) =
      [CallEnsureRcloneConfig; CallListProcesses;
       CallWaitForPort gatewayProc 18789 "tcp" 15000; CallKill gatewayProc;
       CallStartProcess "/usr/local/bin/start-openclaw.sh" None] ++ rest.
Proof.
  cbv zeta.
  destruct (ensureOnce_existing_process
              (scripted 0 (Ok [gatewayProc]) (Throw portTimeout) (Ok tt)
                        (Throw (Thrown "no capacity")) (Ok (mkLogs "" "")))
              18789 180000 ∅ world0
              (mkWorld None 0 [CallEnsureRcloneConfig] 1)
              (mkWorld (Some gatewayProc) 1000 [CallEnsureRcloneConfig; CallListProcesses] 1)
              gatewayProc eq_refl eq_refl) as [Hactive Honce].
  split; [exact Hactive|].
  cbv zeta in Honce. cbn [scripted rt_waitForPort rt_kill] in Honce.
  destruct Honce as [_ [rest Hrest]]. exists rest. rewrite Hrest. reflexivity.
Defined.

(** C4 as stated fails here: the existing gateway is found, its probe
    times out, the kill is rejected with a Durable Object reset, and the
    attempt ends with that rejection without starting anything. *)
Lemma stuck_process_kill_reset_starts_nothing :
  let sb := scripted 0 (Ok [gatewayProc]) (Throw portTimeout) (Throw resetError)
                     (Ok freshProc) (Ok (mkLogs "" "")) in
  let w0 := snd (ensureRcloneConfig sb ∅ world0) in
  let found := findExistingMoltbotProcess sb w0 in
  fst found = Ok (Some gatewayProc) ∧
  fst (waitForPort sb gatewayProc 18789 "tcp" 15000 (snd found)) = Throw portTimeout ∧
  fst (_ensureMoltbotGatewayOnce sb 18789 180000 ∅ world0) = Throw resetError ∧
  existsb isStartProcess (calls (snd (_ensureMoltbotGatewayOnce sb 18789 180000 ∅ world0)))
    = false.
Proof. vm_compute. repeat split. Qed.

(** C7 at the input where it fails: a fresh gateway that never answers on
    its port within the three minutes of the wait, with logs at hand.  The
    logs are fetched, by the early-log timer during the wait and again
    when the wait has failed, yet the caller gets the bare port error, not
    the error that carries the captured stderr and has the port error as
    its cause. *)
Theorem unreachable_gateway_error_lacks_diagnostics :
  let logs := mkLogs "Starting OpenClaw Gateway..." "Error: invalid config" in
  let sb := clocked 180000 2 (Ok []) (Throw portTimeout) (Ok tt) (Ok freshProc) (Ok logs) in
  let outcome := _ensureMoltbotGatewayOnce sb 18789 180000 ∅ clock0 in
  fst outcome = Throw portTimeout ∧
  fst outcome ≠ Throw (ErrorObj "OpenClaw gateway failed to start. Stderr: Error: invalid config"
                                (Some portTimeout)) ∧
  calls (snd outcome) =
    [CallEnsureRcloneConfig; CallListProcesses;
     CallStartProcess "/usr/local/bin/start-openclaw.sh" None;
     CallWaitForPort freshProc 18789 "tcp" 180000;
     CallGetLogs freshProc;
     CallGetLogs freshProc].
Proof.
  cbv zeta. split; [vm_compute; reflexivity|]. split; [|vm_compute; reflexivity].
  vm_compute. discriminate.
Qed.

(** *** The cache, a fresh start and the bound on the attempts *)

Section MoreFacts.

Context {E : Type}.
Variable sandbox : Sandbox E.
Variable MOLTBOT_PORT : Z.
Variable STARTUP_TIMEOUT_MS : Z.

Abbreviation once' := (_ensureMoltbotGatewayOnce sandbox MOLTBOT_PORT STARTUP_TIMEOUT_MS).
Abbreviation ensure' := (ensureMoltbotGateway sandbox MOLTBOT_PORT STARTUP_TIMEOUT_MS).
Abbreviation startNew' := (startNewGateway sandbox MOLTBOT_PORT STARTUP_TIMEOUT_MS).
Abbreviation attemptW' := (attemptWorld sandbox MOLTBOT_PORT STARTUP_TIMEOUT_MS).
Abbreviation attemptR' := (attemptResult sandbox MOLTBOT_PORT STARTUP_TIMEOUT_MS).

Ltac split_answers :=
  repeat (cbn [fst snd calls cachedProcess cacheTimestamp runtime] in *;
          match goal with
          | |- context [match ?x with _ => _ end] =>
              lazymatch x with
              | context [match _ with _ => _ end] => fail
              | _ => destruct x eqn:?
              end
          | |- context [if ?b then _ else _] =>
              lazymatch b with
              | context [if _ then _ else _] => fail
              | context [match _ with _ => _ end] => fail
              | _ => destruct b eqn:?
              end
          end).

Ltac unfold_calls :=
  unfold awaiting, earlyLogs, settled, clock in *;
  unfold invalidateProcessCache, listProcesses, startProcess, waitForPort, kill,
    getLogs, ensureRcloneConfig in *;
  unfold bind, try_catch, ret, throw, call, dateNow, setCache, getCache, sleep in *.

(** X5: the cache answers exactly when its entry is less than two seconds
    old and still starting or running; then the cached process is
    returned, no call is made to the sandbox, and the cache stays as it
    is, process and timestamp.  Otherwise the process table is listed. *)
Theorem findExistingMoltbotProcess_cache (w : World E) :
  let now := fst (rt_now sandbox (runtime w)) in
  let hit := match cachedProcess w with
             | Some p => (now - cacheTimestamp w <? 2000)%Z && isActive p
             | None => false
             end in
  if hit
  then findExistingMoltbotProcess sandbox w =
         (Ok (cachedProcess w),
          mkWorld (cachedProcess w) (cacheTimestamp w) (calls w)
                  (snd (rt_now sandbox (runtime w))))
  else ∃ rest, calls (snd (findExistingMoltbotProcess sandbox w))
               = calls w ++ CallListProcesses :: rest.
Proof.
  cbv zeta. unfold findExistingMoltbotProcess, cachedIfFresh, isActive,
    PROCESS_CACHE_TTL_MS. unfold_calls.
  destruct (rt_now sandbox (runtime w)) as [now rt1]. cbn [fst snd].
  destruct (cachedProcess w) as [p|] eqn:Hcached; cbn.
  - destruct (now - cacheTimestamp w <? 2000)%Z; cbn.
    + rewrite (orb_comm (bool_decide (status p = "starting"))).
      destruct (bool_decide (status p = "running") || bool_decide (status p = "starting"));
        cbn; [done|].
      split_answers; cbn; eauto.
    + split_answers; cbn; eauto.
  - split_answers; cbn; eauto.
Qed.

(** Where [find] stops: at the first element that passes the test. *)
Lemma find_first {A} (f : A → bool) (l : list A) :
  match List.find f l with
  | Some x => ∃ before after, l = before ++ x :: after ∧ f x = true ∧
                              Forall (λ y, f y = false) before
  | None => Forall (λ y, f y = false) l
  end.
Proof.
  induction l as [|a l IH]; cbn; [constructor|].
  destruct (f a) eqn:Ha.
  - exists [], l. repeat split; [done|constructor].
  - destruct (List.find f l) as [x|].
    + destruct IH as (before & after & -> & Hx & Hbefore).
      exists (a :: before), after. repeat split; [done|by constructor].
    + by constructor.
Qed.

(** X6: what the listing of the process table yields.  The loop returns
    from the first process of the list whose command is a gateway
    command, is no CLI command, and whose status is starting or running:
    every process before it fails one of the three.  That process is
    cached with the time of the hit.  When every process of the list
    fails one of the three, [null] is returned and cached.  The listing
    is the only call made. *)
Theorem findExistingMoltbotProcess_enumerates (w w1 : World E) processes rt2 :
  cachedIfFresh sandbox w = (Ok None, w1) →
  rt_listProcesses sandbox (runtime w1) = (Ok processes, rt2) →
  let gateway p := isGatewayProcess p && negb (isCliCommand p) && isActive p in
  ∃ result,
    findExistingMoltbotProcess sandbox w =
      (Ok result,
       mkWorld result (fst (rt_now sandbox rt2)) (calls w1 ++ [CallListProcesses])
               (snd (rt_now sandbox rt2))) ∧
    match result with
    | Some p =>
        ∃ before after, processes = before ++ p :: after ∧
          isGatewayProcess p = true ∧ isCliCommand p = false ∧ isActive p = true ∧
          Forall (λ q, gateway q = false) before
    | None => Forall (λ q, gateway q = false) processes
    end.
Proof.
  intros Hcache Hlist. cbv zeta. exists (firstGateway processes). split.
  - unfold findExistingMoltbotProcess. unfold bind at 1. rewrite Hcache.
    unfold_calls. rewrite Hlist.
    by destruct (firstGateway processes); cbn;
      destruct (rt_now sandbox rt2) as [now rt3].
  - unfold firstGateway.
    pose proof (find_first
                  (λ proc, isGatewayProcess proc && negb (isCliCommand proc)
                           && isActive proc) processes) as Hfirst.
    destruct (List.find _ processes) as [p|]; [|exact Hfirst].
    destruct Hfirst as (before & after & -> & Hp & Hbefore).
    apply andb_true_iff in Hp as [[Hgw Hcli]%andb_true_iff Hactive].
    apply negb_true_iff in Hcli. by exists before, after.
Qed.

(** X7: when [startProcess] is rejected, its error is thrown as it is; the
    port is not waited for, no log is fetched and the cache is left
    alone. *)
Theorem startNewGateway_start_fails env (w : World E) e rt' :
  rt_startProcess sandbox "/usr/local/bin/start-openclaw.sh"
    (if decide (buildEnvVars env = ∅) then None else Some (buildEnvVars env))
    (runtime w) = (Throw e, rt') →
  startNew' env w =
    (Throw e,
     mkWorld (cachedProcess w) (cacheTimestamp w)
       (calls w ++ [CallStartProcess "/usr/local/bin/start-openclaw.sh"
                      (if decide (buildEnvVars env = ∅) then None
                       else Some (buildEnvVars env))]) rt').
Proof.
  intros Hstart. unfold startNewGateway. unfold_calls. cbv zeta. by rewrite Hstart.
Qed.

(** X8: the three ways the wait for a fresh gateway ends, after
    [startProcess] returned [p].  Port and logs both there: [p] is
    returned, with the cache invalidated.  A rejection of the wait with
    the reset signature: thrown as it is.  A port that answers but logs
    that cannot be fetched: the attempt fails although the gateway is up,
    with the error of the [catch]: the log error when it has the reset
    signature, and else what a second [getLogs] leads to.  The logs are
    fetched in the state the early-log timer leaves. *)
Theorem startNewGateway_wait env (w : World E) p rt1 :
  rt_startProcess sandbox "/usr/local/bin/start-openclaw.sh"
    (if decide (buildEnvVars env = ∅) then None else Some (buildEnvVars env))
    (runtime w) = (Ok p, rt1) →
  match rt_waitForPort sandbox p MOLTBOT_PORT "tcp" STARTUP_TIMEOUT_MS rt1 with
  | (Ok _, rt2) =>
      match rt_getLogs sandbox p (afterEarlyLogs sandbox p rt1 rt2) with
      | (Ok _, _) =>
          fst (startNew' env w) = Ok p ∧
          cachedProcess (snd (startNew' env w)) = None ∧
          cacheTimestamp (snd (startNew' env w)) = 0%Z
      | (Throw e, rt3) =>
          fst (startNew' env w) =
            Throw (if isDurableObjectReset e then e else
                   match rt_getLogs sandbox p rt3 with
                   | (Ok logs, _) =>
                       let diagnostic :=
                         ErrorObj ("OpenClaw gateway failed to start. Stderr: "
                                   +:+ orEmpty (stderr logs)) (Some e) in
                       if isDurableObjectReset diagnostic then diagnostic else e
                   | (Throw logErr, _) =>
                       if isDurableObjectReset logErr then logErr else e
                   end)
      end
  | (Throw e, _) =>
      isDurableObjectReset e = true → fst (startNew' env w) = Throw e
  end.
Proof.
  intros Hstart. unfold startNewGateway, afterEarlyLogs. unfold_calls. cbv zeta.
  rewrite Hstart. cbn.
  destruct (rt_waitForPort sandbox p MOLTBOT_PORT "tcp" STARTUP_TIMEOUT_MS rt1)
    as [[[]|e] rt2]; cbn; unfold EARLY_LOG_DELAY_MS.
  - destruct (20000 <=? fst (rt_now sandbox rt2) - fst (rt_now sandbox rt1))%Z; cbn.
    + destruct (rt_getLogs sandbox p rt2) as [early rt2']; cbn.
      destruct early as [early|early]; cbn;
        (destruct (rt_getLogs sandbox p rt2') as [[logs|e] rt3]; cbn; [done|]);
        (destruct (isDurableObjectReset e); cbn; [done|]);
        (destruct (rt_getLogs sandbox p rt3) as [[logs|e2] rt4]; cbn);
        by repeat match goal with
                  | |- context [isDurableObjectReset ?x] =>
                      destruct (isDurableObjectReset x); cbn
                  end.
    + destruct (rt_getLogs sandbox p rt2) as [[logs|e] rt3]; cbn; [done|].
      destruct (isDurableObjectReset e); cbn; [done|].
      destruct (rt_getLogs sandbox p rt3) as [[logs|e2] rt4]; cbn;
        by repeat match goal with
                  | |- context [isDurableObjectReset ?x] =>
                      destruct (isDurableObjectReset x); cbn
                  end.
  - intros He.
    destruct (20000 <=? fst (rt_now sandbox rt2) - fst (rt_now sandbox rt1))%Z; cbn;
      [destruct (rt_getLogs sandbox p rt2) as [[] rt2']; cbn|];
      by rewrite He.
Qed.

(** X9: a fresh gateway that does not answer on its port, for a reason
    other than a reset, with logs that can be fetched (in the state the
    early-log timer leaves): the error built from the logs reaches the
    caller only if its own message has the reset signature; otherwise the
    error of the wait is thrown, as it is, without the logs and without a
    cause. *)
Theorem startNewGateway_diagnostics env (w : World E) p e rt1 logs rt2 rt3 :
  rt_startProcess sandbox "/usr/local/bin/start-openclaw.sh"
    (if decide (buildEnvVars env = ∅) then None else Some (buildEnvVars env))
    (runtime w) = (Ok p, rt1) →
  rt_waitForPort sandbox p MOLTBOT_PORT "tcp" STARTUP_TIMEOUT_MS rt1 = (Throw e, rt2) →
  isDurableObjectReset e = false →
  rt_getLogs sandbox p (afterEarlyLogs sandbox p rt1 rt2) = (Ok logs, rt3) →
  let diagnostic := ErrorObj ("OpenClaw gateway failed to start. Stderr: "
                              +:+ orEmpty (stderr logs)) (Some e) in
  fst (startNew' env w) =
    Throw (if isDurableObjectReset diagnostic then diagnostic else e).
Proof.
  intros Hstart Hwait He Hlogs. cbv zeta. revert Hlogs.
  unfold startNewGateway, afterEarlyLogs. unfold_calls.
  cbv zeta. rewrite Hstart. cbn. rewrite Hwait. cbn. unfold EARLY_LOG_DELAY_MS.
  destruct (20000 <=? fst (rt_now sandbox rt2) - fst (rt_now sandbox rt1))%Z; cbn.
  - destruct (rt_getLogs sandbox p rt2) as [early rt2']; cbn. intros Hlogs.
    destruct early as [early|early]; cbn; rewrite He; cbn; rewrite Hlogs; cbn;
      by destruct (isDurableObjectReset (ErrorObj _ _)).
  - intros Hlogs. rewrite He. cbn. rewrite Hlogs. cbn.
    destruct (20000 <=? fst (rt_now sandbox rt3) - fst (rt_now sandbox rt1))%Z; cbn;
      [destruct (rt_getLogs sandbox p rt3) as [[] rt4]; cbn|];
      by destruct (isDurableObjectReset (ErrorObj _ _)).
Qed.

Lemma attempts_app cs cs' : attempts (cs ++ cs') = attempts cs + attempts cs'.
Proof.
  induction cs as [|c cs IH]; [done|]. destruct c; cbn; by rewrite ?IH.
Qed.

(** A single attempt calls [ensureRcloneConfig] once. *)
Lemma once_attempts env (w : World E) :
  attempts (calls (snd (once' env w))) = S (attempts (calls w)).
Proof.
  unfold _ensureMoltbotGatewayOnce, findExistingMoltbotProcess, cachedIfFresh,
    probeExisting, startNewGateway. unfold_calls.
  split_answers; cbn; rewrite ?attempts_app; cbn; rewrite ?attempts_app; cbn; lia.
Qed.

Lemma attemptWorld_attempts env k (w : World E) :
  attempts (calls (attemptW' env k w)) = attempts (calls w) + k.
Proof.
  induction k as [|k IH]; cbn [attemptWorld]; [lia|].
  unfold sleep. cbn. rewrite attempts_app, once_attempts, IH. cbn. lia.
Qed.

(** X10: however the runtime behaves, [ensureMoltbotGateway] makes at most four
    attempts and asks for at most three delays, of five seconds each. *)
Theorem ensureMoltbotGateway_bounded env (w : World E) :
  ∃ k, k ≤ 3 ∧
    attempts (calls (snd (ensure' env w))) = attempts (calls w) + S k ∧
    delays (calls (snd (ensure' env w))) = delays (calls w) ++ repeat 5000%Z k.
Proof.
  assert (Hk : ∃ k, k ≤ DO_RESET_MAX_RETRIES ∧
             (∀ i, i < k → retried (fst (attemptR' env i w))) ∧
             final k (fst (attemptR' env k w))).
  { destruct (final_or_retried 0 (fst (attemptR' env 0 w))) as [H0|[H0 _]].
    { exists 0. split; [unfold DO_RESET_MAX_RETRIES; lia|]. split; [lia|done]. }
    destruct (final_or_retried 1 (fst (attemptR' env 1 w))) as [H1|[H1 _]].
    { exists 1. split; [unfold DO_RESET_MAX_RETRIES; lia|]. split; [|done].
      intros [|i] Hi; [done|lia]. }
    destruct (final_or_retried 2 (fst (attemptR' env 2 w))) as [H2|[H2 _]].
    { exists 2. split; [unfold DO_RESET_MAX_RETRIES; lia|]. split; [|done].
      intros [|[|i]] Hi; [done|done|lia]. }
    destruct (final_or_retried 3 (fst (attemptR' env 3 w))) as [H3|[_ H3]].
    { exists 3. split; [unfold DO_RESET_MAX_RETRIES; lia|]. split; [|done].
      intros [|[|[|i]]] Hi; [done|done|done|lia]. }
    by destruct H3. }
  destruct Hk as (k & Hle & Hretried & Hfinal). exists k.
  split; [exact Hle|].
  assert (Heq : ensure' env w = attemptR' env k w).
  { apply ensureLoop_attempts; [done|lia|done|done]. }
  rewrite Heq. unfold attemptResult.
  rewrite once_attempts, attemptWorld_attempts, once_delays, attemptWorld_delays.
  split; [lia|done].
Qed.

End MoreFacts.

(** X4: the reset signature is a test for two substrings of the message
    (of [String(err)] for what is no [Error]), anywhere in it and in this
    very spelling. *)
Theorem isDurableObjectReset_signature err :
  let msg := match err with
             | ErrorObj message _ => message
             | Thrown text => text
             end in
  isDurableObjectReset err = true ↔
  ∃ pre post, msg = pre +:+ "Durable Object reset" +:+ post ∨
              msg = pre +:+ "Network connection lost" +:+ post.
Proof.
  cbv zeta. unfold isDurableObjectReset. cbv zeta.
  rewrite orb_true_iff, !includes_substring. split.
  - intros [(pre & post & Hmsg) | (pre & post & Hmsg)]; exists pre, post; eauto.
  - intros (pre & post & [Hmsg | Hmsg]); [left | right]; by exists pre, post.
Qed.

(** A table with a CLI command, a gateway that has exited and two running
    gateways: the first of the two is found. *)
Lemma findExistingMoltbotProcess_enumerates_witness :
  let table := [mkProcess "proc-7" "openclaw devices list --json" "running";
                mkProcess "proc-0" "openclaw gateway --port 18789" "completed";
                gatewayProc;
                mkProcess "proc-9" "openclaw gateway --port 18789" "running"] in
  let sb := scripted 0 (Ok table) (Ok tt) (Ok tt) (Ok freshProc) (Ok (mkLogs "" "")) in
  fst (findExistingMoltbotProcess sb world0) = Ok (Some gatewayProc) ∧
  ∃ before after, table = before ++ gatewayProc :: after ∧
    Forall (λ q, isGatewayProcess q && negb (isCliCommand q) && isActive q = false)
           before.
Proof.
  cbv zeta.
  destruct (findExistingMoltbotProcess_enumerates
              (scripted 0 (Ok [mkProcess "proc-7" "openclaw devices list --json" "running";
                               mkProcess "proc-0" "openclaw gateway --port 18789" "completed";
                               gatewayProc;
                               mkProcess "proc-9" "openclaw gateway --port 18789" "running"])
                        (Ok tt) (Ok tt) (Ok freshProc) (Ok (mkLogs "" "")))
              world0 world0 _ 0 eq_refl eq_refl) as (result & Hfind & Hfirst).
  assert (Hresult : result = Some gatewayProc).
  { vm_compute in Hfind. by injection Hfind as <-. }
  subst result. split; [by rewrite Hfind|].
  destruct Hfirst as (before & after & Htable & _ & _ & _ & Hbefore).
  by exists before, after.
Defined.

(** A sandbox that refuses to start the entrypoint. *)
Lemma startNewGateway_start_fails_witness :
  let sb := scripted 0 (Ok []) (Ok tt) (Ok tt) (Throw (Thrown "no capacity"))
                     (Ok (mkLogs "" "")) in
  startNewGateway sb 18789 180000 ∅ world0 =
    (Throw (Thrown "no capacity"),
     mkWorld None 0 [CallStartProcess "/usr/local/bin/start-openclaw.sh" None] 0).
Proof.
  cbv zeta.
  rewrite (startNewGateway_start_fails
             (scripted 0 (Ok []) (Ok tt) (Ok tt) (Throw (Thrown "no capacity"))
                       (Ok (mkLogs "" "")))
             18789 180000 ∅ world0 (Thrown "no capacity") 0 eq_refl).
  reflexivity.
Defined.

(** A gateway that answers on its port after 25 seconds, with logs that
    can be fetched once: the early-log timer takes them, and the attempt
    fails although the gateway is up. *)
Lemma startNewGateway_wait_witness :
  let sb := clocked 25000 1 (Ok []) (Ok tt) (Ok tt) (Ok freshProc)
                    (Ok (mkLogs "" "")) in
  fst (startNewGateway sb 18789 180000 ∅ clock0) = Throw (Thrown "logs unavailable").
Proof.
  cbv zeta.
  exact (startNewGateway_wait
           (clocked 25000 1 (Ok []) (Ok tt) (Ok tt) (Ok freshProc) (Ok (mkLogs "" "")))
           18789 180000 ∅ clock0 freshProc (0%Z, 0%nat) eq_refl).
Defined.

(** A gateway that never answers within the three minutes of the wait,
    with logs at hand. *)
Lemma startNewGateway_diagnostics_witness :
  let sb := clocked 180000 2 (Ok []) (Throw portTimeout) (Ok tt) (Ok freshProc)
                    (Ok (mkLogs "" "Error: invalid config")) in
  fst (startNewGateway sb 18789 180000 ∅ clock0) = Throw portTimeout.
Proof.
  cbv zeta.
  rewrite (startNewGateway_diagnostics
             (clocked 180000 2 (Ok []) (Throw portTimeout) (Ok tt) (Ok freshProc)
                      (Ok (mkLogs "" "Error: invalid config")))
             18789 180000 ∅ clock0 freshProc portTimeout (0%Z, 0%nat)
             (mkLogs "" "Error: invalid config") (180000%Z, 0%nat) (180000%Z, 2%nat)
             eq_refl eq_refl eq_refl eq_refl).
  reflexivity.
Defined.

End Orchestrator.

(** ** The config patch of the startup script (the [EOFPATCH] node script) *)

Module Patch.

(** A number as [JSON.parse] delivers it.  The patch never computes with
    the numbers of the document; what matters is which of them are falsy
    (the two zeros) and what [JSON.stringify] writes for them: a finite
    double is written so that it reads back the same, negative zero is
    written [0], and an infinity (read from a literal too large for a
    double, such as [1e999]) is written [null].  A finite double is kept
    as [mantissa * 2 ^ exponent]. *)
Inductive Num : Type :=
| NumFinite (mantissa exponent : Z)
| NumNegZero
| NumInfinite (negative : bool).

(** A JavaScript value reachable from [config].  An array can carry named
    properties next to its elements, as any object can; objects and named
    properties are kept in enumeration order. *)
#[warnings="-register-all"]
Inductive Val : Type :=
| VNull
| VBool (b : bool)
| VNum (n : Num)
| VStr (s : string)
| VArr (elems : list Val) (named : list (string * Val))
| VObj (props : list (string * Val)).

Abbreviation Props := (list (string * Val)).

Fixpoint props_get (k : string) (ps : Props) : option Val :=
  match ps with
  | [] => None
  | (k', v) :: rest => if String.eqb k' k then Some v else props_get k rest
  end.

(** Writing a property: an existing one keeps its place, a new one goes
    last. *)
Fixpoint props_set (k : string) (x : Val) (ps : Props) : Props :=
  match ps with
  | [] => [(k, x)]
  | (k', v) :: rest =>
      if String.eqb k' k then (k', x) :: rest else (k', v) :: props_set k x rest
  end.

Definition num_truthy (n : Num) : bool :=
  match n with
  | NumFinite mantissa _ => negb (mantissa =? 0)%Z
  | NumNegZero => false
  | NumInfinite _ => true
  end.

Definition truthy_val (v : Val) : bool :=
  match v with
  | VNull => false
  | VBool b => b
  | VNum n => num_truthy n
  | VStr s => negb (String.eqb s "")
  | VArr _ _ | VObj _ => true
  end.

(** [c.k] for a value [c]: [None] is the [TypeError] of reading a
    property of [null]; [Some None] is [undefined].  The keys the patch
    uses are neither indices nor [length], nor properties of the
    prototypes of strings, numbers, booleans, arrays or objects, so only
    the named own properties answer. *)
Definition get (c : Val) (k : string) : option (option Val) :=
  match c with
  | VNull => None
  | VBool _ | VNum _ | VStr _ => Some None
  | VArr _ named => Some (props_get k named)
  | VObj props => Some (props_get k props)
  end.

(** [c.k = x] in sloppy mode (the script is a CommonJS script without
    ["use strict"]): a [TypeError] on [null], silently nothing on a
    primitive.  The result is [c] after the assignment. *)
Definition set (c : Val) (k : string) (x : Val) : option Val :=
  match c with
  | VNull => None
  | VBool _ | VNum _ | VStr _ => Some c
  | VArr elems named => Some (VArr elems (props_set k x named))
  | VObj props => Some (VObj (props_set k x props))
  end.

(** [o || {}] *)
Definition or_empty (o : option Val) : Val :=
  match o with
  | Some v => if truthy_val v then v else VObj []
  | None => VObj []
  end.

(** The right-hand side of an assignment statement of the patch. *)
Inductive Rhs : Type :=
| Const (x : Val)     (* a value built from literals and the environment *)
| OrEmpty.            (* the assigned property itself, [|| {}] *)

(** [config.p1.….pn.field = rhs] *)
Record Stmt : Type := mkStmt {
  path : list string;
  field : string;
  rhs : Rhs;
}.

Definition Assign (path : list string) (field : string) (x : Val) : Stmt :=
  mkStmt path field (Const x).
Definition Ensure (path : list string) (field : string) : Stmt :=
  mkStmt path field OrEmpty.

(** Running one statement on the value [c] that [config] (or, deeper, the
    object reached so far) holds.  Objects are shared by reference in the
    script; here the object changed at the end of the path is put back
    where it was read. *)
Fixpoint exec_at (path : list string) (field : string) (r : Rhs) (c : Val)
  : option Val :=
  match path with
  | [] =>
      match r with
      | Const x => set c field x
      | OrEmpty => o ← get c field; set c field (or_empty o)
      end
  | p :: rest =>
      o ← get c p;
      child ← o;
      child' ← exec_at rest field r child;
      set c p child'
  end.

Definition exec (s : Stmt) : Val → option Val :=
  exec_at (path s) (field s) (rhs s).

Fixpoint exec_all (ss : list Stmt) (c : Val) : option Val :=
  match ss with
  | [] => Some c
  | s :: rest => c' ← exec s c; exec_all rest c'
  end.

(** *** The values the patch builds *)

Definition num (z : Z) : Val := VNum (NumFinite z 0).
Definition arr (elems : list Val) : Val := VArr elems [].

(** [process.env] *)
Abbreviation ProcessEnv := (gmap string string).

(** [s.indexOf('/')] *)
Fixpoint indexOf_slash (s : string) : Z :=
  match s with
  | EmptyString => -1
  | String c rest =>
      if Ascii.eqb c "/"%char then 0
      else let i := indexOf_slash rest in if (i <? 0)%Z then -1 else i + 1
  end%Z.

(** [s.substring(from, to)]: both indices are clamped to the string and
    swapped when out of order. *)
Definition substring (s : string) (from to : Z) : string :=
  let len := Z.of_nat (String.length s) in
  let clamp i := Z.max 0 (Z.min i len) in
  let lo := Z.min (clamp from) (clamp to) in
  let hi := Z.max (clamp from) (clamp to) in
  String.substring (Z.to_nat lo) (Z.to_nat (hi - lo)) s.

(** [s.split(',')] *)
Fixpoint split_commas (s : string) : list string :=
  match s with
  | EmptyString => [EmptyString]
  | String c rest =>
      if Ascii.eqb c ","%char then EmptyString :: split_commas rest
      else match split_commas rest with
           | [] => [String c EmptyString]
           | first :: others => String c first :: others
           end
  end.

(** [ids.includes('*')] *)
Definition has_star (ids : list string) : bool :=
  existsb (String.eqb "*") ids.

(** *** The statements of the patch, in the order of the script *)

Definition base (env : ProcessEnv) : list Stmt :=
  [ Ensure [] "gateway";
    Ensure [] "channels";
    (* Fix workspace path *)
    Ensure [] "agents";
    Ensure ["agents"] "defaults";
    Assign ["agents"; "defaults"] "workspace" (VStr "/root/clawd");
    (* Gateway configuration *)
    Assign ["gateway"] "port" (num 18789);
    Assign ["gateway"] "mode" (VStr "local");
    Assign ["gateway"] "trustedProxies" (arr [VStr "10.1.0.0"]);
    Assign ["gateway"] "auth"
      (VObj [("mode", VStr "token");
             ("token", VStr (default "sandbox-internal-fallback"
                               (truthy (env !! "SANDBOX_GATEWAY_TOKEN"))))]);
    Ensure ["gateway"] "controlUi";
    Assign ["gateway"; "controlUi"] "allowInsecureAuth" (VBool true);
    Assign ["gateway"; "controlUi"] "dangerouslyDisableDeviceAuth" (VBool true) ].

(** The [baseUrl] of the model override; [None] is [undefined]. *)
Definition model_baseUrl (env : ProcessEnv) (gwProvider : string) : option string :=
  match truthy (env !! "CF_AI_GATEWAY_ACCOUNT_ID"),
        truthy (env !! "CF_AI_GATEWAY_GATEWAY_ID") with
  | Some accountId, Some gatewayId =>
      let baseUrl := "https://gateway.ai.cloudflare.com/v1/" +:+ accountId +:+ "/"
                     +:+ gatewayId +:+ "/" +:+ gwProvider in
      Some (if String.eqb gwProvider "workers-ai" then baseUrl +:+ "/v1" else baseUrl)
  | _, _ =>
      match truthy (env !! "CF_ACCOUNT_ID") with
      | Some cfAccountId =>
          if String.eqb gwProvider "workers-ai"
          then Some ("https://api.cloudflare.com/client/v4/accounts/" +:+ cfAccountId
                     +:+ "/ai/v1")
          else None
      | None => None
      end
  end.

(** AI Gateway model override ([CF_AI_GATEWAY_MODEL=provider/model-id]) *)
Definition model_override (env : ProcessEnv) : list Stmt :=
  match truthy (env !! "CF_AI_GATEWAY_MODEL") with
  | Some raw =>
      let slashIdx := indexOf_slash raw in
      let gwProvider := substring raw 0 slashIdx in
      let modelId := substring raw (slashIdx + 1) (Z.of_nat (String.length raw)) in
      match truthy (model_baseUrl env gwProvider),
            truthy (env !! "CLOUDFLARE_AI_GATEWAY_API_KEY") with
      | Some baseUrl, Some apiKey =>
          let api := if String.eqb gwProvider "anthropic"
                     then "anthropic-messages" else "openai-completions" in
          let providerName := "cf-ai-gw-" +:+ gwProvider in
          [ Ensure [] "models";
            Ensure ["models"] "providers";
            Assign ["models"; "providers"] providerName
              (VObj [("baseUrl", VStr baseUrl);
                     ("apiKey", VStr apiKey);
                     ("api", VStr api);
                     ("models", arr [VObj [("id", VStr modelId);
                                           ("name", VStr modelId);
                                           ("contextWindow", num 131072);
                                           ("maxTokens", num 8192)]])]);
            Ensure [] "agents";
            Ensure ["agents"] "defaults";
            Assign ["agents"; "defaults"] "model"
              (VObj [("primary", VStr (providerName +:+ "/" +:+ modelId))]) ]
      | _, _ => []
      end
  | None => []
  end.

(** Telegram configuration *)
Definition telegram (env : ProcessEnv) : list Stmt :=
  match truthy (env !! "TELEGRAM_BOT_TOKEN") with
  | Some botToken =>
      let dmPolicy := default "pairing" (truthy (env !! "TELEGRAM_DM_POLICY")) in
      Assign ["channels"] "telegram"
        (VObj [("botToken", VStr botToken);
               ("enabled", VBool true);
               ("dmPolicy", VStr dmPolicy)])
      :: match truthy (env !! "TELEGRAM_DM_ALLOW_FROM") with
         | Some allowFrom =>
             let ids := split_commas allowFrom in
             let ids := if String.eqb dmPolicy "open" && negb (has_star ids)
                        then ids ++ ["*"] else ids in
             [ Assign ["channels"; "telegram"] "allowFrom" (arr (VStr <$> ids)) ]
         | None =>
             if String.eqb dmPolicy "open"
             then [ Assign ["channels"; "telegram"] "allowFrom" (arr [VStr "*"]) ]
             else []
         end
  | None => []
  end.

(** Discord configuration *)
Definition discord (env : ProcessEnv) : list Stmt :=
  match truthy (env !! "DISCORD_BOT_TOKEN") with
  | Some token =>
      let dmPolicy := default "pairing" (truthy (env !! "DISCORD_DM_POLICY")) in
      let dm := [("policy", VStr dmPolicy)]
                ++ (if String.eqb dmPolicy "open" then [("allowFrom", arr [VStr "*"])] else []) in
      [ Assign ["channels"] "discord"
          (VObj [("token", VStr token); ("enabled", VBool true); ("dm", VObj dm)]) ]
  | None => []
  end.

(** Slack configuration *)
Definition slack (env : ProcessEnv) : list Stmt :=
  match truthy (env !! "SLACK_BOT_TOKEN"), truthy (env !! "SLACK_APP_TOKEN") with
  | Some botToken, Some appToken =>
      [ Assign ["channels"] "slack"
          (VObj [("botToken", VStr botToken);
                 ("appToken", VStr appToken);
                 ("enabled", VBool true)]) ]
  | _, _ => []
  end.

Definition statements (env : ProcessEnv) : list Stmt :=
  base env ++ model_override env ++ telegram env ++ discord env ++ slack env.

(** The body of the script between reading and writing the file. *)
Definition patch_config (env : ProcessEnv) (config : Val) : option Val :=
  exec_all (statements env) config.

(** *** Reading and writing [openclaw.json] *)

(** What [JSON.parse] makes of the text [JSON.stringify] writes for a
    value: the named properties of arrays are not written, an infinity is
    written [null] and negative zero [0]. *)
Fixpoint reparse (v : Val) : Val :=
  match v with
  | VNum NumNegZero => VNum (NumFinite 0 0)
  | VNum (NumInfinite _) => VNull
  | VArr elems _ => VArr (map reparse elems) []
  | VObj props => VObj (map (λ kv, (kv.1, reparse kv.2)) props)
  | _ => v
  end.

(** The config file: missing, holding text that [JSON.parse] rejects, or
    holding text that parses to a value. *)
Inductive File : Type :=
| Missing
| Unparsable
| Json (d : Val).

(** The whole script.  When the body throws, node exits before
    [writeFileSync] and the file stays as it was (the startup script then
    prints a warning and goes on). *)
Definition patch_file (env : ProcessEnv) (file : File) : File :=
  let config := match file with
                | Json d => d
                | Missing | Unparsable => VObj []   (* "Starting with empty config" *)
                end in
  match patch_config env config with
  | Some config' => Json (reparse config')
  | None => file
  end.

(** What holds of every value [JSON.parse] returns: arrays carry no named
    properties and no object has two properties of one name. *)
Fixpoint parsed (v : Val) : bool :=
  match v with
  | VArr elems named =>
      forallb parsed elems && match named with [] => true | _ => false end
  | VObj props =>
      bool_decide (NoDup props.*1) && forallb (λ kv, parsed kv.2) props
  | _ => true
  end.

(** A number too large for a double, read as an infinity. *)
Definition overflow (v : Val) : bool :=
  match v with
  | VNum (NumInfinite _) => true
  | _ => false
  end.

(** [config.p1.….pn] as the script reads it; [None] when the way there
    goes through [undefined] or [null]. *)
Fixpoint at_path (path : list string) (c : Val) : option Val :=
  match path with
  | [] => Some c
  | p :: rest => o ← get c p; child ← o; at_path rest child
  end.

(** The properties that the patch keeps with [|| {}] and of which it then
    only assigns properties: [config.channels], [config.agents.defaults],
    [config.gateway.controlUi] and [config.models.providers]. *)
Definition fragile_slots : list (list string) :=
  [ ["channels"]; ["agents"; "defaults"]; ["gateway"; "controlUi"];
    ["models"; "providers"] ].

(** None of these properties holds a number too large for a double. *)
Definition fits (d : Val) : bool :=
  forallb (λ path, match at_path path d with
                   | Some v => negb (overflow v)
                   | None => true
                   end)
          fragile_slots.

Definition parsed_opt (o : option Val) : Prop :=
  match o with
  | Some v => parsed v = true
  | None => True
  end.

(** [map reparse] on the properties of an object. *)
Definition reparse_props (ps : Props) : Props :=
  map (λ kv, (kv.1, reparse kv.2)) ps.

(** A primitive is a boolean, a number or a string. *)
Definition is_prim (v : Val) : bool :=
  match v with
  | VBool _ | VNum _ | VStr _ => true
  | _ => false
  end.

(** *** A statement seen from the object it first goes through *)

(** What a statement does to one property of an object: from the value it
    holds ([None] for [undefined]) to the value it holds afterwards;
    the result [None] is a [TypeError]. *)
Definition Slot : Type := option Val → option Val.

(** The property of the current object that the statement reads first. *)
Definition key (s : Stmt) : string :=
  match path s with
  | [] => field s
  | p :: _ => p
  end.

(** The statement as a change of that property. *)
Definition inner (s : Stmt) : Slot :=
  match path s with
  | [] => λ o, Some (match rhs s with
                     | Const x => x
                     | OrEmpty => or_empty o
                     end)
  | _ :: rest => λ o, c ← o; exec_at rest (field s) (rhs s) c
  end.

Definition run_slot (k : string) (t : Slot) (ps : Props) : option Props :=
  c ← t (props_get k ps); Some (props_set k c ps).

(** The statements run on the properties of an object. *)
Fixpoint run_props (ss : list Stmt) (ps : Props) : option Props :=
  match ss with
  | [] => Some ps
  | s :: rest => ps' ← run_slot (key s) (inner s) ps; run_props rest ps'
  end.

(** The statements run on property [k] alone. *)
Fixpoint slot_run (k : string) (ss : list Stmt) (o : option Val)
  : option (option Val) :=
  match ss with
  | [] => Some o
  | s :: rest =>
      if String.eqb (key s) k
      then c ← inner s o; slot_run k rest (Some c)
      else slot_run k rest o
  end.

(** The statements that go through property [k], as statements on the
    object held by [k]. *)
Fixpoint sub (k : string) (ss : list Stmt) : list Stmt :=
  match ss with
  | [] => []
  | s :: rest =>
      match path s with
      | p :: tail =>
          if String.eqb p k then mkStmt tail (field s) (rhs s) :: sub k rest
          else sub k rest
      | [] => sub k rest
      end
  end.

Definition top_const (s : Stmt) : bool :=
  match path s, rhs s with
  | [], Const _ => true
  | _, _ => false
  end.

Definition top_ensure (s : Stmt) : bool :=
  match path s, rhs s with
  | [], OrEmpty => true
  | _, _ => false
  end.

Definition top_level (s : Stmt) : bool :=
  match path s with
  | [] => true
  | _ => false
  end.

(** A shape of statement lists whose second run changes nothing: every
    property the statements touch is either first assigned a value built
    from the environment, or first given [|| {}], never assigned
    otherwise, and the statements that go through it have that shape
    again, [depth] levels down. *)
Fixpoint stable (depth : nat) (ss : list Stmt) : bool :=
  match depth with
  | O => false
  | S d =>
      forallb
        (λ s,
           match List.find (λ s', String.eqb (key s') (key s)) ss with
           | Some first =>
               top_const first
               || (top_ensure first
                   && negb (existsb (λ s', top_const s' && String.eqb (key s') (key s)) ss)
                   && stable d (sub (key s) ss))
           | None => false
           end)
        ss
  end.

(** The properties, as paths from the current object, that the statements
    keep with [|| {}] and through which they then only assign properties,
    [depth] levels down.  A primitive held by such a property survives the
    run. *)
Fixpoint forcing (depth : nat) (ss : list Stmt) : list (list string) :=
  match depth with
  | O => []
  | S d =>
      flat_map
        (λ s,
           if top_ensure s
           then (if forallb top_level (sub (key s) ss) then [[key s]] else [])
                ++ map (cons (key s)) (forcing d (sub (key s) ss))
           else [])
        ss
  end.


(** The named properties of an object or an array. *)
Definition named_props (v : Val) : option Props :=
  match v with
  | VObj ps | VArr _ ps => Some ps
  | _ => None
  end.

(** *** Properties: reading after writing *)

Lemma Val_ind' (P : Val → Prop) :
  P VNull → (∀ b, P (VBool b)) → (∀ n, P (VNum n)) → (∀ s, P (VStr s)) →
  (∀ elems named, Forall P elems → Forall (λ kv, P kv.2) named → P (VArr elems named)) →
  (∀ props, Forall (λ kv, P kv.2) props → P (VObj props)) →
  ∀ v, P v.
Proof.
  intros Hnull Hbool Hnum Hstr Harr Hobj.
  fix IH 1. intros [| b | n | s | elems named | props].
  - exact Hnull.
  - apply Hbool.
  - apply Hnum.
  - apply Hstr.
  - apply Harr.
    + induction elems as [|e elems IHe]; constructor; [apply IH | exact IHe].
    + induction named as [|[k x] named IHn]; constructor; [apply IH | exact IHn].
  - apply Hobj.
    induction props as [|[k x] props IHp]; constructor; [apply IH | exact IHp].
Qed.

Lemma props_get_set_eq k x ps : props_get k (props_set k x ps) = Some x.
Proof.
  induction ps as [|[k' v] ps IH]; cbn.
  - by rewrite String.eqb_refl.
  - destruct (String.eqb k' k) eqn:Hk; cbn; by rewrite Hk.
Qed.

Lemma props_get_set_ne k k' x ps :
  k ≠ k' → props_get k' (props_set k x ps) = props_get k' ps.
Proof.
  intros Hne. induction ps as [|[k0 v] ps IH]; cbn.
  - destruct (String.eqb_spec k k'); [done|reflexivity].
  - destruct (String.eqb_spec k0 k) as [->|Hk0]; cbn.
    + destruct (String.eqb_spec k k'); [done|reflexivity].
    + destruct (String.eqb_spec k0 k'); [reflexivity|exact IH].
Qed.

Lemma props_get_None k ps : props_get k ps = None ↔ k ∉ ps.*1.
Proof.
  induction ps as [|[k' v] ps IH]; cbn.
  - split; [intros _; apply not_elem_of_nil | done].
  - rewrite not_elem_of_cons. destruct (String.eqb_spec k' k) as [->|Hk].
    + split; [discriminate | intros [? _]; done].
    + rewrite IH. split; [intros ?; split; [congruence|done] | intros [_ ?]; done].
Qed.

Lemma props_get_Some_elem k v ps : props_get k ps = Some v → (k, v) ∈ ps.
Proof.
  induction ps as [|[k' v'] ps IH]; cbn; [discriminate|].
  destruct (String.eqb_spec k' k) as [->|Hk].
  - intros [= ->]. apply list_elem_of_here.
  - intros H. apply list_elem_of_further, IH, H.
Qed.

Lemma props_set_keys_Some k x ps :
  is_Some (props_get k ps) → (props_set k x ps).*1 = ps.*1.
Proof.
  induction ps as [|[k' v] ps IH]; cbn.
  - intros [? [=]].
  - destruct (String.eqb k' k); cbn; [done|]. intros H. by rewrite IH.
Qed.

Lemma props_set_keys_None k x ps :
  props_get k ps = None → (props_set k x ps).*1 = ps.*1 ++ [k].
Proof.
  induction ps as [|[k' v] ps IH]; cbn; [done|].
  destruct (String.eqb k' k); cbn; [discriminate|]. intros H. by rewrite IH.
Qed.

Lemma props_set_NoDup k x ps : NoDup ps.*1 → NoDup (props_set k x ps).*1.
Proof.
  intros Hnd. destruct (props_get k ps) as [v|] eqn:Hget.
  - by rewrite props_set_keys_Some.
  - rewrite props_set_keys_None by done. apply NoDup_app. split; [done|].
    split; [|apply NoDup_singleton].
    intros k' Hin ->%list_elem_of_singleton. by apply props_get_None in Hget.
Qed.

(** Two property lists with the same keys in the same order, no key
    repeated, are equal when they read the same. *)
Lemma props_ext ps : ∀ qs,
  ps.*1 = qs.*1 → NoDup ps.*1 → (∀ k, props_get k ps = props_get k qs) → ps = qs.
Proof.
  induction ps as [|[k v] ps IH]; intros [|[k' v'] qs]; cbn; try done.
  intros [= <- Hkeys] Hnd Hget. apply NoDup_cons in Hnd as [Hk Hnd].
  pose proof (Hget k) as Hhead. rewrite String.eqb_refl in Hhead.
  injection Hhead as <-. f_equal. apply IH; [done|done|].
  intros k0. specialize (Hget k0).
  destruct (String.eqb_spec k k0) as [Heq|Hne]; [subst k0|done].
  transitivity (@None Val); [by apply props_get_None|].
  symmetry. apply props_get_None. by rewrite <- Hkeys.
Qed.

(** *** Writing the document and reading it again *)

Lemma reparse_props_keys ps : (reparse_props ps).*1 = ps.*1.
Proof. unfold reparse_props. induction ps as [|[k v] ps IH]; cbn; by rewrite ?IH. Qed.

Lemma props_get_reparse k ps :
  props_get k (reparse_props ps) = reparse <$> props_get k ps.
Proof.
  unfold reparse_props. induction ps as [|[k' v] ps IH]; cbn; [done|].
  by destruct (String.eqb k' k).
Qed.

Lemma reparse_idem v : reparse (reparse v) = reparse v.
Proof.
  induction v as [| b | n | s | elems named IHe _ | props IHp] using Val_ind'; cbn; try done.
  - by destruct n.
  - f_equal. rewrite map_map. apply map_ext_Forall. exact IHe.
  - f_equal. rewrite map_map. apply map_ext_Forall.
    eapply Forall_impl; [exact IHp|]. intros [k v] H. cbn in *. by rewrite H.
Qed.

Lemma reparse_props_idem ps : reparse_props (reparse_props ps) = reparse_props ps.
Proof.
  unfold reparse_props. rewrite map_map. apply map_ext. intros [k v]. cbn.
  by rewrite reparse_idem.
Qed.

(** Unless it is an infinity, what is written reads back with the same
    truthiness and the same kind. *)
Lemma reparse_truthy v : overflow v = false → truthy_val (reparse v) = truthy_val v.
Proof. destruct v as [| | [| |]| | |]; done. Qed.

Lemma reparse_prim v :
  overflow v = false → is_prim v = true → is_prim (reparse v) = true.
Proof. destruct v as [| | [| |]| | |]; done. Qed.

Lemma parsed_props_get k ps c :
  parsed (VObj ps) = true → props_get k ps = Some c → parsed c = true.
Proof.
  cbn. intros [_ Hp]%andb_true_iff Hget.
  apply props_get_Some_elem in Hget.
  rewrite forallb_forall in Hp. apply list_elem_of_In in Hget.
  apply (Hp _ Hget).
Qed.

Lemma parsed_NoDup ps : parsed (VObj ps) = true → NoDup ps.*1.
Proof.
  cbn. intros [Hnd _]%andb_true_iff. by apply bool_decide_eq_true in Hnd.
Qed.

Lemma parsed_or_empty o : parsed_opt o → parsed (or_empty o) = true.
Proof.
  destruct o as [v|]; cbn; [|by vm_compute].
  intros Hv. by destruct (truthy_val v).
Qed.

Lemma truthy_or_empty o : truthy_val (or_empty o) = true.
Proof. destruct o as [v|]; cbn; [|done]. by destruct (truthy_val v) eqn:Hv. Qed.

(** *** Statements on objects, arrays, primitives and [null] *)

Lemma exec_obj s ps :
  exec s (VObj ps) = VObj <$> run_slot (key s) (inner s) ps.
Proof.
  destruct s as [[|p rest] f r]; unfold exec, key, inner, run_slot; cbn.
  - by destruct r.
  - destruct (props_get p ps) as [child|]; cbn; [|done].
    by destruct (exec_at rest f r child).
Qed.

Lemma exec_arr s elems xs :
  exec s (VArr elems xs) = VArr elems <$> run_slot (key s) (inner s) xs.
Proof.
  destruct s as [[|p rest] f r]; unfold exec, key, inner, run_slot; cbn.
  - by destruct r.
  - destruct (props_get p xs) as [child|]; cbn; [|done].
    by destruct (exec_at rest f r child).
Qed.

Lemma exec_all_obj ss : ∀ ps,
  exec_all ss (VObj ps) = VObj <$> run_props ss ps.
Proof.
  induction ss as [|s ss IH]; intros ps; cbn; [done|].
  rewrite exec_obj. destruct (run_slot (key s) (inner s) ps) as [ps'|]; cbn; [|done].
  apply IH.
Qed.

Lemma exec_all_arr ss elems : ∀ xs,
  exec_all ss (VArr elems xs) = VArr elems <$> run_props ss xs.
Proof.
  induction ss as [|s ss IH]; intros xs; cbn; [done|].
  rewrite exec_arr. destruct (run_slot (key s) (inner s) xs) as [xs'|]; cbn; [|done].
  apply IH.
Qed.

Lemma exec_prim s c :
  is_prim c = true → exec s c = if top_level s then Some c else None.
Proof.
  destruct s as [[|p rest] f r]; unfold exec, top_level; cbn;
    destruct c; try discriminate; intros _; by destruct r.
Qed.

Lemma exec_all_prim ss c :
  is_prim c = true →
  exec_all ss c = if forallb top_level ss then Some c else None.
Proof.
  intros Hc. induction ss as [|s ss IH]; cbn; [done|].
  rewrite exec_prim by done. destruct (top_level s); cbn; [exact IH|done].
Qed.

Lemma exec_null s : exec s VNull = None.
Proof. destruct s as [[|p rest] f r]; unfold exec; cbn; by destruct r. Qed.

Lemma exec_truthy s c c' :
  exec s c = Some c' → truthy_val c = true → truthy_val c' = true.
Proof.
  destruct c as [| b | n | str | elems xs | ps].
  - by rewrite exec_null.
  - rewrite exec_prim by done. destruct (top_level s); [|done]. by intros [= <-].
  - rewrite exec_prim by done. destruct (top_level s); [|done]. by intros [= <-].
  - rewrite exec_prim by done. destruct (top_level s); [|done]. by intros [= <-].
  - rewrite exec_arr. destruct (run_slot _ _ _); [|done]. by intros [= <-].
  - rewrite exec_obj. destruct (run_slot _ _ _); [|done]. by intros [= <-].
Qed.

Lemma exec_all_truthy ss : ∀ c c1,
  exec_all ss c = Some c1 → truthy_val c = true → truthy_val c1 = true.
Proof.
  induction ss as [|s ss IH]; intros c c1; cbn.
  - by intros [= <-].
  - destruct (exec s c) as [c'|] eqn:Hexec; cbn; [|done].
    intros Hrun Hc. apply (IH c' c1 Hrun). by apply (exec_truthy s c c').
Qed.

(** A run ends with an infinity only when it began with that infinity and
    every statement was the assignment of a property of it. *)
Lemma exec_all_overflow ss c c1 :
  exec_all ss c = Some c1 → overflow c1 = true →
  c = c1 ∧ forallb top_level ss = true.
Proof.
  destruct c as [| b | n | str | elems xs | ps].
  - destruct ss as [|s ss]; cbn.
    + by intros [= <-].
    + by rewrite exec_null.
  - rewrite exec_all_prim by done. destruct (forallb _ _); [|done]. by intros [= <-].
  - rewrite exec_all_prim by done. destruct (forallb _ _); [|done]. by intros [= <-].
  - rewrite exec_all_prim by done. destruct (forallb _ _); [|done]. by intros [= <-].
  - rewrite exec_all_arr. destruct (run_props _ _); [|done]. by intros [= <-].
  - rewrite exec_all_obj. destruct (run_props _ _); [|done]. by intros [= <-].
Qed.

(** *** A run on an object, property by property *)

Lemma slot_run_untouched k ss o :
  (∀ s, s ∈ ss → key s ≠ k) → slot_run k ss o = Some o.
Proof.
  induction ss as [|s ss IH]; intros Hkeys; cbn; [done|].
  destruct (String.eqb_spec (key s) k) as [Heq|_].
  - by destruct (Hkeys s (list_elem_of_here _ _)).
  - apply IH. intros s' Hs'. apply Hkeys. by apply list_elem_of_further.
Qed.

Lemma slot_run_touched s ss : ∀ o o',
  s ∈ ss → slot_run (key s) ss o = Some o' → is_Some o'.
Proof.
  induction ss as [|s0 ss IH]; intros o o' Hin; [by apply elem_of_nil in Hin|].
  cbn. destruct (String.eqb_spec (key s0) (key s)) as [Heq|Hne].
  - destruct (inner s0 o) as [c|]; cbn; [|done].
    clear Hin. revert c. clear IH Heq.
    induction ss as [|s1 ss IH']; intros c; cbn.
    + intros [= <-]. by eexists.
    + destruct (String.eqb (key s1) (key s)); [|apply IH'].
      destruct (inner s1 (Some c)) as [c'|]; cbn; [apply IH'|done].
  - apply elem_of_cons in Hin as [->|Hin]; [done|]. by apply IH.
Qed.

Lemma run_props_slot ss : ∀ ps qs k,
  run_props ss ps = Some qs → slot_run k ss (props_get k ps) = Some (props_get k qs).
Proof.
  induction ss as [|s ss IH]; intros ps qs k; cbn.
  - by intros [= <-].
  - unfold run_slot. destruct (inner s (props_get (key s) ps)) as [c|] eqn:Hc; cbn; [|done].
    intros Hrun. destruct (String.eqb_spec (key s) k) as [<-|Hne].
    + rewrite Hc. cbn. rewrite <- (props_get_set_eq (key s) c ps). by apply IH.
    + rewrite <- (props_get_set_ne (key s) k c ps) by done. by apply IH.
Qed.

Lemma run_props_defined ss : ∀ ps,
  (∀ k, slot_run k ss (props_get k ps) ≠ None) → is_Some (run_props ss ps).
Proof.
  induction ss as [|s ss IH]; intros ps Hall; cbn; [by eexists|].
  unfold run_slot. pose proof (Hall (key s)) as Hs. cbn in Hs.
  rewrite String.eqb_refl in Hs.
  destruct (inner s (props_get (key s) ps)) as [c|] eqn:Hc; cbn in *; [|done].
  apply IH. intros k. destruct (String.eqb_spec (key s) k) as [<-|Hne].
  - by rewrite props_get_set_eq.
  - rewrite props_get_set_ne by done. specialize (Hall k). cbn in Hall.
    by destruct (String.eqb_spec (key s) k).
Qed.

Lemma run_props_keys ss : ∀ ps qs,
  run_props ss ps = Some qs →
  (∀ s, s ∈ ss → is_Some (props_get (key s) ps)) →
  qs.*1 = ps.*1.
Proof.
  induction ss as [|s ss IH]; intros ps qs; cbn.
  - by intros [= <-].
  - unfold run_slot. destruct (inner s (props_get (key s) ps)) as [c|]; cbn; [|done].
    intros Hrun Hpresent.
    rewrite <- (props_set_keys_Some (key s) c ps)
      by (apply Hpresent, list_elem_of_here).
    apply IH; [done|]. intros s' Hs'.
    destruct (String.eqb_spec (key s) (key s')) as [<-|Hne].
    + rewrite props_get_set_eq. by eexists.
    + rewrite props_get_set_ne by done. by apply Hpresent, list_elem_of_further.
Qed.

Lemma run_props_NoDup ss : ∀ ps qs,
  run_props ss ps = Some qs → NoDup ps.*1 → NoDup qs.*1.
Proof.
  induction ss as [|s ss IH]; intros ps qs; cbn.
  - by intros [= <-].
  - unfold run_slot. destruct (inner s (props_get (key s) ps)) as [c|]; cbn; [|done].
    intros Hrun Hnd. eapply IH; [done|]. by apply props_set_NoDup.
Qed.

(** The second run on an object.  If, property by property, running the
    statements on what the first run wrote changes nothing that is
    written, then a second run that does not throw writes the object the
    first run wrote. *)
Lemma run_props_again ss ps qs qs2 :
  NoDup ps.*1 →
  run_props ss ps = Some qs →
  (∀ s c1 c2, s ∈ ss →
     slot_run (key s) ss (props_get (key s) ps) = Some (Some c1) →
     slot_run (key s) ss (Some (reparse c1)) = Some (Some c2) →
     reparse c2 = reparse c1) →
  run_props ss (reparse_props qs) = Some qs2 →
  reparse_props qs2 = reparse_props qs.
Proof.
  intros Hnd Hrun Hslots Hrun2.
  assert (Htouched : ∀ s, s ∈ ss → is_Some (props_get (key s) qs)).
  { intros s Hs. pose proof (run_props_slot _ _ _ (key s) Hrun) as Hfirst.
    by destruct (slot_run_touched _ _ _ _ Hs Hfirst) as [c1 ->]. }
  assert (Hkeys : qs2.*1 = (reparse_props qs).*1).
  { apply (run_props_keys ss); [done|]. intros s Hs.
    rewrite props_get_reparse. destruct (Htouched s Hs) as [c1 ->]. by eexists. }
  apply props_ext.
  - by rewrite !reparse_props_keys in *.
  - rewrite reparse_props_keys, Hkeys, reparse_props_keys.
    by eapply run_props_NoDup.
  - intros k. pose proof (run_props_slot _ _ _ k Hrun2) as Hsecond.
    rewrite !props_get_reparse in *.
    destruct (decide (k ∈ key <$> ss)) as [Hin|Hout].
    + apply list_elem_of_fmap in Hin as (s & -> & Hs).
      pose proof (run_props_slot _ _ _ (key s) Hrun) as Hfirst.
      destruct (Htouched s Hs) as [c1 Hc1]. rewrite Hc1 in *. cbn in Hsecond.
      destruct (slot_run_touched _ _ _ _ Hs Hsecond) as [c2 Hc2].
      rewrite Hc2 in *. cbn. f_equal. by apply (Hslots s c1 c2).
    + rewrite slot_run_untouched in Hsecond.
      * injection Hsecond as <-.
        destruct (props_get k qs); cbn; [|done]. by rewrite reparse_idem.
      * intros s Hs Hk. apply Hout. apply list_elem_of_fmap. by exists s.
Qed.

(** *** Why the second run changes nothing *)

(** A property first assigned a value of the environment ends with a
    value that does not depend on what it held. *)
Lemma slot_run_const k ss first :
  List.find (λ s', String.eqb (key s') k) ss = Some first →
  top_const first = true →
  ∀ o o', slot_run k ss o = slot_run k ss o'.
Proof.
  induction ss as [|s ss IH]; cbn; [done|].
  destruct (String.eqb (key s) k); [|exact IH].
  intros [= ->] Hconst o o'. clear IH.
  destruct first as [[|p rest] f [x|]]; done.
Qed.

(** A property given [|| {}] and never assigned otherwise ends with what
    the statements through it make of the object it holds. *)
Lemma slot_run_sub_truthy k ss : ∀ c,
  truthy_val c = true →
  existsb (λ s', top_const s' && String.eqb (key s') k) ss = false →
  slot_run k ss (Some c) = Some <$> exec_all (sub k ss) c.
Proof.
  induction ss as [|s ss IH]; intros c Hc; cbn; [done|].
  intros [Hs Hrest]%orb_false_iff.
  destruct s as [[|p tail] f r]; unfold key in *; cbn in *.
  - destruct (String.eqb f k); [|by apply IH].
    destruct r as [x|]; cbn in *; [done|]. rewrite Hc. by apply IH.
  - destruct (String.eqb p k); [|by apply IH]. cbn. unfold exec. cbn.
    destruct (exec_at tail f r c) as [c'|] eqn:Hexec; cbn; [|done].
    apply IH; [|done].
    by apply (exec_truthy (mkStmt tail f r) c c').
Qed.

Lemma slot_run_sub k ss first :
  List.find (λ s', String.eqb (key s') k) ss = Some first →
  top_ensure first = true →
  existsb (λ s', top_const s' && String.eqb (key s') k) ss = false →
  ∀ o, slot_run k ss o = Some <$> exec_all (sub k ss) (or_empty o).
Proof.
  induction ss as [|s ss IH]; cbn; [done|].
  destruct (String.eqb (key s) k) eqn:Hk.
  - intros [= ->] Hensure [_ Hrest]%orb_false_iff o.
    destruct first as [[|p tail] f [x|]]; try done. cbn.
    apply slot_run_sub_truthy; [apply truthy_or_empty | exact Hrest].
  - intros Hfind Hensure [_ Hrest]%orb_false_iff o.
    rewrite (IH Hfind Hensure Hrest o).
    destruct s as [[|p tail] f r]; unfold key in Hk; cbn in *; [done|].
    by rewrite Hk.
Qed.

Lemma at_path_empty path v : at_path path (VObj []) = Some v → overflow v = false.
Proof. destruct path as [|p rest]; cbn; [by intros [= <-]|done]. Qed.

(** The second run of a stable list of statements, started from what the
    first run wrote, writes the same again unless it throws, when no
    property that would let a primitive survive held an infinity. *)
Lemma stable_again depth : ∀ ss c c1 c2,
  stable depth ss = true →
  parsed c = true →
  (∀ path v, In path (forcing depth ss) → at_path path c = Some v →
             overflow v = false) →
  exec_all ss c = Some c1 →
  exec_all ss (reparse c1) = Some c2 →
  reparse c2 = reparse c1.
Proof.
  induction depth as [|d IH]; intros ss c c1 c2 Hstable Hparsed Hsafe Hrun Hrun2;
    [done|].
  destruct c as [| b | n | str | elems xs | ps].
  - destruct ss as [|s ss]; cbn in Hrun.
    + injection Hrun as <-. cbn in Hrun2. by injection Hrun2 as <-.
    + by rewrite exec_null in Hrun.
  - rewrite exec_all_prim in Hrun by done.
    destruct (forallb top_level ss) eqn:Htop; [|done]. injection Hrun as <-.
    rewrite exec_all_prim, Htop in Hrun2 by done. injection Hrun2 as <-.
    by rewrite ?reparse_idem.
  - rewrite exec_all_prim in Hrun by done.
    destruct (forallb top_level ss) eqn:Htop; [|done]. injection Hrun as <-.
    destruct (overflow (VNum n)) eqn:Hn.
    + destruct n as [| |negative]; [done|done|]. cbn in Hrun2.
      destruct ss as [|s ss]; cbn in Hrun2.
      * by injection Hrun2 as <-.
      * by rewrite exec_null in Hrun2.
    + rewrite exec_all_prim, Htop in Hrun2 by (by apply reparse_prim).
      assert (c2 = reparse (VNum n)) as -> by congruence. apply reparse_idem.
  - rewrite exec_all_prim in Hrun by done.
    destruct (forallb top_level ss) eqn:Htop; [|done]. injection Hrun as <-.
    rewrite exec_all_prim, Htop in Hrun2 by done. injection Hrun2 as <-.
    by rewrite ?reparse_idem.
  - assert (xs = []) as ->.
    { cbn in Hparsed. apply andb_true_iff in Hparsed as [_ Hp]. by destruct xs. }
    rewrite exec_all_arr in Hrun.
    destruct (run_props ss []) as [xs1|] eqn:Hxs; [|done]. injection Hrun as <-.
    cbn [reparse] in Hrun2. rewrite exec_all_arr, Hxs in Hrun2.
    injection Hrun2 as <-. cbn. f_equal.
    rewrite map_map. apply map_ext. intros v. apply reparse_idem.
  - rewrite exec_all_obj in Hrun.
    destruct (run_props ss ps) as [qs|] eqn:Hqs; [|done]. injection Hrun as <-.
    cbn [reparse] in Hrun2. fold (reparse_props qs) in Hrun2.
    rewrite exec_all_obj in Hrun2.
    destruct (run_props ss (reparse_props qs)) as [qs2|] eqn:Hqs2; [|done].
    injection Hrun2 as <-. cbn [reparse]. fold (reparse_props qs) (reparse_props qs2).
    f_equal. apply (run_props_again ss ps qs qs2); [by apply parsed_NoDup|done| |done].
    intros s c1 c2 Hs Hslot Hslot2. cbn [stable] in Hstable.
    rewrite forallb_forall in Hstable.
    specialize (Hstable s (proj1 (list_elem_of_In _ _) Hs)).
    destruct (List.find (λ s', String.eqb (key s') (key s)) ss)
      as [first|] eqn:Hfind; [|done].
    apply orb_true_iff in Hstable as [Hconst|Hensure].
    + rewrite (slot_run_const _ _ _ Hfind Hconst _ (props_get (key s) ps)) in Hslot2.
      rewrite Hslot in Hslot2. by injection Hslot2 as <-.
    + apply andb_true_iff in Hensure as [[Hensure Hnone]%andb_true_iff Hsub].
      apply negb_true_iff in Hnone.
      pose proof (slot_run_sub _ _ _ Hfind Hensure Hnone) as Hgroup.
      rewrite Hgroup in Hslot, Hslot2.
      destruct (exec_all (sub (key s) ss) (or_empty (props_get (key s) ps)))
        as [c1'|] eqn:Hc1; [|done].
      injection Hslot as ->.
      apply find_some in Hfind as [Hfirst Hkey]. apply String.eqb_eq in Hkey.
      assert (Hparsed' : parsed (or_empty (props_get (key s) ps)) = true).
      { apply parsed_or_empty. destruct (props_get (key s) ps) eqn:Hget; [|done].
        cbn. by eapply parsed_props_get. }
      assert (Hhere : ∀ path, In path
                        ((if forallb top_level (sub (key s) ss) then [[key s]] else [])
                         ++ map (cons (key s)) (forcing d (sub (key s) ss))) →
                      In path (forcing (S d) ss)).
      { intros path Hpath. cbn [forcing]. apply in_flat_map. exists first.
        split; [done|]. by rewrite Hensure, Hkey. }
      assert (Hsafe' : ∀ path v, In path (forcing d (sub (key s) ss)) →
                at_path path (or_empty (props_get (key s) ps)) = Some v →
                overflow v = false).
      { intros path v Hpath Hat.
        destruct (props_get (key s) ps) as [v0|] eqn:Hget; cbn in Hat;
          [destruct (truthy_val v0)|]; try by apply at_path_empty in Hat.
        apply (Hsafe (key s :: path) v).
        - apply Hhere, in_or_app. right. by apply in_map.
        - cbn. by rewrite Hget. }
      assert (Hc1' : overflow c1 = false).
      { destruct (overflow c1) eqn:Hover; [|done].
        destruct (exec_all_overflow _ _ _ Hc1 Hover) as [Heq Htop].
        destruct (props_get (key s) ps) as [v0|] eqn:Hget; cbn in Heq;
          [destruct (truthy_val v0)|]; try (by subst c1).
        subst v0. rewrite <- Hover. apply (Hsafe [key s] c1).
        - apply Hhere, in_or_app. left. rewrite Htop. by left.
        - cbn. by rewrite Hget. }
      assert (Htruthy : truthy_val (reparse c1) = true).
      { rewrite reparse_truthy by done.
        apply (exec_all_truthy _ _ _ Hc1), truthy_or_empty. }
      cbn [or_empty] in Hslot2. rewrite Htruthy in Hslot2.
      destruct (exec_all (sub (key s) ss) (reparse c1)) as [c2'|] eqn:Hc2; [|done].
      injection Hslot2 as ->.
      by apply (IH _ _ _ _ Hsub Hparsed' Hsafe' Hc1).
Qed.

(** Splits on what the environment makes of the optional blocks of the
    patch. *)
Ltac env_shapes env :=
  unfold statements, base, model_override, telegram, discord, slack;
  destruct (truthy (env !! "CF_AI_GATEWAY_MODEL")) as [raw|];
    [destruct (truthy (model_baseUrl env _)) as [baseUrl|];
       [destruct (truthy (env !! "CLOUDFLARE_AI_GATEWAY_API_KEY")) as [apiKey|]|]|];
    cbv zeta;
    try generalize ("cf-ai-gw-" +:+ substring raw 0 (indexOf_slash raw)) as providerName;
    try intros providerName;
    (destruct (truthy (env !! "TELEGRAM_BOT_TOKEN")) as [botToken|];
       [destruct (truthy (env !! "TELEGRAM_DM_ALLOW_FROM")) as [allowFrom|];
          [|destruct (String.eqb _ "open")]|]);
    (destruct (truthy (env !! "DISCORD_BOT_TOKEN")) as [token|]);
    (destruct (truthy (env !! "SLACK_BOT_TOKEN")) as [slackBot|];
       [destruct (truthy (env !! "SLACK_APP_TOKEN")) as [slackApp|]|]).

(** The statements of the patch have the stable shape, whatever the
    environment. *)
Lemma statements_stable env : stable 4 (statements env) = true.
Proof. env_shapes env; cbn; rewrite ?String.eqb_refl; reflexivity. Qed.

(** Whatever the environment, a primitive can survive the patch only in
    one of the four properties of [fragile_slots]. *)
Lemma statements_forcing env :
  Forall (λ path, In path fragile_slots) (forcing 4 (statements env)).
Proof.
  env_shapes env; apply Forall_forall; intros path Hpath%list_elem_of_In;
    cbn in *; tauto.
Qed.

(** On the empty document no statement of the patch throws. *)
Lemma patch_config_empty env : is_Some (patch_config env (VObj [])).
Proof. unfold patch_config. env_shapes env; cbn; eauto. Qed.

(** C5, as the code has it: the patch is idempotent on every file whose
    document, when there is one, has no number too large for a double in
    [channels], [agents.defaults], [gateway.controlUi] or
    [models.providers]; such numbers anywhere else do no harm.  A missing
    file and a file that does not parse are both patched as the empty
    document, and the patch of the empty document never fails: it leaves
    a document in the file. *)
Theorem patch_file_twice env file :
  (∀ d, file = Json d → parsed d = true ∧ fits d = true) →
  patch_file env (patch_file env file) = patch_file env file ∧
  patch_file env Missing = patch_file env (Json (VObj [])) ∧
  patch_file env Unparsable = patch_file env (Json (VObj [])) ∧
  ∃ d, patch_file env Missing = Json d ∧ patch_file env Unparsable = Json d.
Proof.
  intros Hfile. split; [|split; [|split]].
  - unfold patch_file at 2 3.
    set (config := match file with Json d => d | _ => VObj [] end).
    assert (Hconfig : parsed config = true ∧ fits config = true).
    { subst config. destruct file as [| |d]; [done|done|]. by apply Hfile. }
    destruct Hconfig as [Hparsed Hfits].
    destruct (patch_config env config) as [c1|] eqn:Hrun.
    + unfold patch_file.
      destruct (patch_config env (reparse c1)) as [c2|] eqn:Hrun2; [|done].
      f_equal.
      apply (stable_again 4 (statements env) config c1 c2);
        [apply statements_stable|done| |done|done].
      intros path v Hpath Hat.
      pose proof (statements_forcing env) as Hslots. rewrite Forall_forall in Hslots.
      apply list_elem_of_In, Hslots in Hpath.
      unfold fits in Hfits. rewrite forallb_forall in Hfits.
      specialize (Hfits path Hpath). rewrite Hat in Hfits.
      by apply negb_true_iff.
    + unfold patch_file. fold config. by rewrite Hrun.
  - unfold patch_file. by destruct (patch_config_empty env) as [c ->].
  - unfold patch_file. by destruct (patch_config_empty env) as [c ->].
  - unfold patch_file. destruct (patch_config_empty env) as [c ->]. by eexists.
Qed.

(** A partly configured document with numbers too large for a double in
    [gateway.port] and in a list of its own, patched twice with Telegram
    enabled. *)
Lemma patch_file_twice_witness :
  let env : ProcessEnv := {[ "TELEGRAM_BOT_TOKEN" := "123:abc";
                             "TELEGRAM_DM_POLICY" := "open" ]} in
  let file := Json (VObj [("gateway", VObj [("port", VNum (NumInfinite false))]);
                          ("limits", arr [VNum (NumInfinite false)]);
                          ("channels", VObj [("telegram", VStr "off")])]) in
  patch_file env (patch_file env file) = patch_file env file.
Proof.
  intros env file. refine (proj1 (patch_file_twice env file _)).
  intros d [= <-]. split; vm_compute; reflexivity.
Defined.

(** C5 as stated fails on a document with a number too large for a
    double: [{"channels": 1e999}] is read with [channels] infinite, which
    is truthy and kept; it is written [null]; the second run reads [null]
    and replaces it with an empty object. *)
Lemma patch_file_infinity_not_idempotent :
  let file := Json (VObj [("channels", VNum (NumInfinite false))]) in
  parsed (VObj [("channels", VNum (NumInfinite false))]) = true ∧
  props_get "channels"
    match patch_file ∅ file with Json (VObj ps) => ps | _ => [] end = Some VNull ∧
  props_get "channels"
    match patch_file ∅ (patch_file ∅ file) with Json (VObj ps) => ps | _ => [] end
    = Some (VObj []) ∧
  patch_file ∅ (patch_file ∅ file) ≠ patch_file ∅ file.
Proof.
  cbv zeta. split; [vm_compute; reflexivity|].
  split; [vm_compute; reflexivity|]. split; [vm_compute; reflexivity|].
  vm_compute. discriminate.
Qed.

(** *** What a patched document holds *)

Lemma slot_run_app k ss1 ss2 : ∀ o,
  slot_run k (ss1 ++ ss2) o = (o' ← slot_run k ss1 o; slot_run k ss2 o').
Proof.
  induction ss1 as [|s ss1 IH]; intros o; cbn; [done|].
  destruct (String.eqb (key s) k); [|apply IH].
  destruct (inner s o) as [c|]; cbn; [apply IH|done].
Qed.

(** Membership in a list written out. *)
Ltac in_list := solve [repeat first [apply list_elem_of_here | apply list_elem_of_further]].



Lemma model_override_keys env :
  Forall (λ s, key s ∈ ["agents"; "models"]) (model_override env).
Proof.
  unfold model_override. destruct (truthy (env !! "CF_AI_GATEWAY_MODEL")); [|constructor].
  cbv zeta. destruct (truthy (model_baseUrl env _)); [|constructor].
  destruct (truthy (env !! "CLOUDFLARE_AI_GATEWAY_API_KEY")); [|constructor].
  repeat constructor; cbn; in_list.
Qed.

Lemma channel_keys env :
  Forall (λ s, key s = "channels") (telegram env ++ discord env ++ slack env).
Proof.
  unfold telegram, discord, slack. rewrite !Forall_app. split; [|split].
  - destruct (truthy (env !! "TELEGRAM_BOT_TOKEN")); [|constructor]. cbv zeta.
    constructor; [done|].
    destruct (truthy (env !! "TELEGRAM_DM_ALLOW_FROM")); [by repeat constructor|].
    destruct (String.eqb _ "open"); by repeat constructor.
  - destruct (truthy (env !! "DISCORD_BOT_TOKEN")); by repeat constructor.
  - destruct (truthy (env !! "SLACK_BOT_TOKEN")); [|constructor].
    destruct (truthy (env !! "SLACK_APP_TOKEN")); by repeat constructor.
Qed.








(** X13: a document that is not an object.  On [null] and on a boolean, a
    number or a string the script throws and the file stays as it was.  On
    an array the assignments land on properties that [JSON.stringify] does
    not write: the file is rewritten with the array alone. *)
Theorem patch_file_root env d :
  parsed d = true →
  (∀ props, d ≠ VObj props) →
  patch_file env (Json d) = Json (match d with VArr _ _ => reparse d | _ => d end).
Proof.
  intros Hparsed Hroot.
  destruct d as [| b | n | s | elems named | props]; try done; [|by destruct (Hroot props)].
  destruct named as [|]; [|cbn in Hparsed; by rewrite andb_false_r in Hparsed].
  unfold patch_file, patch_config. rewrite exec_all_arr.
  destruct (patch_config_empty env) as [c Hc]. unfold patch_config in Hc.
  rewrite exec_all_obj in Hc.
  by destruct (run_props (statements env) []).
Qed.

Lemma slot_run_gateway env o :
  slot_run "gateway" (statements env) o = slot_run "gateway" (base env) o.
Proof.
  unfold statements. rewrite slot_run_app.
  destruct (slot_run "gateway" (base env) o) as [o'|]; cbn; [|done].
  rewrite slot_run_app. rewrite (slot_run_untouched _ (model_override env)).
  - cbn. apply slot_run_untouched. intros s Hs.
    pose proof (channel_keys env) as Hc. rewrite Forall_forall in Hc.
    by rewrite (Hc s Hs).
  - intros s Hs. pose proof (model_override_keys env) as Hm.
    rewrite Forall_forall in Hm. specialize (Hm s Hs).
    intros Heq. rewrite Heq in Hm.
    repeat (apply elem_of_cons in Hm as [Hm|Hm]; [done|]). by apply elem_of_nil in Hm.
Qed.

Ltac props_simpl :=
  repeat first [rewrite props_get_set_eq | rewrite props_get_set_ne by done].

Lemma gateway_patched env o o' :
  slot_run "gateway" (base env) o = Some o' →
  ∃ gw g, o' = Some gw ∧ named_props gw = Some g ∧
    props_get "port" g = Some (num 18789) ∧
    props_get "mode" g = Some (VStr "local") ∧
    props_get "trustedProxies" g = Some (arr [VStr "10.1.0.0"]) ∧
    props_get "auth" g =
      Some (VObj [("mode", VStr "token");
                  ("token", VStr (default "sandbox-internal-fallback"
                                    (truthy (env !! "SANDBOX_GATEWAY_TOKEN"))))]) ∧
    ∃ ui, props_get "controlUi" g = Some ui ∧ truthy_val ui = true ∧
      ∀ u, named_props ui = Some u →
        props_get "allowInsecureAuth" u = Some (VBool true) ∧
        props_get "dangerouslyDisableDeviceAuth" u = Some (VBool true).
Proof.
  unfold base. cbn [slot_run key path field rhs Ensure Assign String.eqb Ascii.eqb Bool.eqb inner].
  pose proof (truthy_or_empty o) as Htruthy. revert Htruthy.
  generalize (or_empty o) as c0. intros c0 Htruthy. cbn.
  destruct c0 as [| b | n | s | elems g0 | g0]; try done; cbn;
    rewrite !props_get_set_ne by done;
    (pose proof (truthy_or_empty (props_get "controlUi" g0)) as Hui; revert Hui;
     generalize (or_empty (props_get "controlUi" g0)) as ui; intros ui Hui);
    rewrite !props_get_set_eq; cbn;
    (destruct ui as [| ub | un | us | uelems u0 | u0]; try done); cbn;
    rewrite ?props_get_set_eq; cbn;
    intros [= <-]; eexists _, _; (split; [reflexivity|]); (split; [reflexivity|]);
    repeat (split; [by props_simpl|]);
    eexists; (split; [by props_simpl|]); (split; [done|]);
    intros u; cbn; try done; intros [= <-]; by props_simpl.
Qed.

Lemma patch_config_slot env props c' k :
  patch_config env (VObj props) = Some c' →
  ∃ props', c' = VObj props' ∧
    slot_run k (statements env) (props_get k props) = Some (props_get k props').
Proof.
  unfold patch_config. rewrite exec_all_obj.
  destruct (run_props (statements env) props) as [props'|] eqn:Hrun; [|done].
  intros [= <-]. exists props'. split; [done|]. by apply run_props_slot.
Qed.

(** X14: after a patch that went through, [gateway] is an object (or an array
    used as one) with the port, the mode and the trusted proxy of the
    script, whatever it held before, and with a truthy [controlUi] that,
    when it is an object, carries the two flags. *)
Theorem patch_config_gateway env props c' :
  patch_config env (VObj props) = Some c' →
  ∃ gw g, get c' "gateway" = Some (Some gw) ∧ named_props gw = Some g ∧
    props_get "port" g = Some (num 18789) ∧
    props_get "mode" g = Some (VStr "local") ∧
    props_get "trustedProxies" g = Some (arr [VStr "10.1.0.0"]) ∧
    ∃ ui, props_get "controlUi" g = Some ui ∧ truthy_val ui = true ∧
      ∀ u, named_props ui = Some u →
        props_get "allowInsecureAuth" u = Some (VBool true) ∧
        props_get "dangerouslyDisableDeviceAuth" u = Some (VBool true).
Proof.
  intros Hrun. destruct (patch_config_slot _ _ _ "gateway" Hrun) as (props' & -> & Hslot).
  rewrite slot_run_gateway in Hslot.
  destruct (gateway_patched _ _ _ Hslot) as (gw & g & Hgw & Hg & Hport & Hmode & Hproxy & _ & Hui).
  exists gw, g. cbn. by rewrite Hgw.
Qed.


Lemma split_commas_cons s : ∃ first others, split_commas s = first :: others.
Proof.
  destruct s as [|c rest]; cbn; [by eexists _, _|].
  destruct (Ascii.eqb c ","); [by eexists _, _|].
  destruct (split_commas rest); by eexists _, _.
Qed.

(** [split(',')] cuts at the commas and nowhere else: joining the pieces
    with commas gives the string back. *)
Lemma concat_split_commas s : String.concat "," (split_commas s) = s.
Proof.
  induction s as [|c rest IH]; [done|]. cbn [split_commas].
  destruct (split_commas_cons rest) as (first & others & Hrest).
  rewrite Hrest in *. destruct (Ascii.eqb_spec c ",") as [->|Hc].
  - by rewrite <- IH.
  - rewrite <- IH. by destruct others.
Qed.

(** No piece of [split(',')] holds a comma. *)
Lemma split_commas_pieces s :
  Forall (λ piece, includes "," piece = false) (split_commas s).
Proof.
  induction s as [|c rest IH]; [by repeat constructor|]. cbn [split_commas].
  destruct (split_commas_cons rest) as (first & others & Hrest).
  rewrite Hrest in *. apply Forall_cons in IH as [Hfirst Hothers].
  destruct (Ascii.eqb_spec c ",") as [->|Hc].
  - by repeat constructor.
  - constructor; [|done]. cbn [includes String.prefix].
    destruct (Ascii.ascii_dec "," c) as [<-|_]; [done|]. exact Hfirst.
Qed.

Lemma has_star_elem ids : has_star ids = true ↔ "*" ∈ ids.
Proof.
  unfold has_star. rewrite existsb_exists. split.
  - intros (x & Hin & Hx). apply String.eqb_eq in Hx as <-. by apply list_elem_of_In.
  - intros Hin. exists "*". split; [by apply list_elem_of_In|done].
Qed.

Lemma slot_run_channels env o :
  slot_run "channels" (statements env) o =
  slot_run "channels" (telegram env ++ discord env ++ slack env) (Some (or_empty o)).
Proof.
  unfold statements. rewrite slot_run_app. unfold base at 1. cbn.
  rewrite slot_run_app. rewrite (slot_run_untouched _ (model_override env)); [done|].
  intros s Hs. pose proof (model_override_keys env) as Hm.
  rewrite Forall_forall in Hm. specialize (Hm s Hs).
  intros Heq. rewrite Heq in Hm.
  repeat (apply elem_of_cons in Hm as [Hm|Hm]; [done|]). by apply elem_of_nil in Hm.
Qed.

(** The Discord and Slack blocks leave [channels.telegram] alone. *)
Lemma later_channels env ch1 o2 :
  slot_run "channels" (discord env ++ slack env) (Some ch1) = Some o2 →
  ∃ ch2, o2 = Some ch2 ∧
    ∀ p2, named_props ch2 = Some p2 →
      ∃ p1, named_props ch1 = Some p1 ∧ props_get "telegram" p2 = props_get "telegram" p1.
Proof.
  unfold discord, slack.
  destruct (truthy (env !! "DISCORD_BOT_TOKEN"));
    (destruct (truthy (env !! "SLACK_BOT_TOKEN"));
       [destruct (truthy (env !! "SLACK_APP_TOKEN"))|]);
    cbn; destruct ch1; cbn; try done;
    intros [= <-]; eexists; (split; [reflexivity|]); cbn; try done;
    intros p2 [= <-]; eexists; (split; [reflexivity|]); by props_simpl.
Qed.

(** What the Telegram block leaves in [channels] when a bot token is
    set. *)
Lemma telegram_channel env botToken c0 o1 :
  truthy (env !! "TELEGRAM_BOT_TOKEN") = Some botToken →
  slot_run "channels" (telegram env) (Some c0) = Some o1 →
  ∃ ch1, o1 = Some ch1 ∧
    ∀ p1, named_props ch1 = Some p1 →
      props_get "telegram" p1 =
        Some (VObj ([("botToken", VStr botToken); ("enabled", VBool true);
                     ("dmPolicy", VStr (default "pairing"
                                          (truthy (env !! "TELEGRAM_DM_POLICY"))))]
                    ++ match truthy (env !! "TELEGRAM_DM_ALLOW_FROM") with
                       | Some allowFrom =>
                           let ids := split_commas allowFrom in
                           [("allowFrom",
                             arr (VStr <$>
                                  (if String.eqb (default "pairing"
                                                    (truthy (env !! "TELEGRAM_DM_POLICY")))
                                                 "open"
                                      && negb (has_star ids)
                                   then ids ++ ["*"] else ids)))]
                       | None =>
                           if String.eqb (default "pairing"
                                            (truthy (env !! "TELEGRAM_DM_POLICY"))) "open"
                           then [("allowFrom", arr [VStr "*"])] else []
                       end)).
Proof.
  intros Htoken. unfold telegram. rewrite Htoken. cbv zeta.
  generalize (default "pairing" (truthy (env !! "TELEGRAM_DM_POLICY"))) as policy.
  intros policy.
  destruct (truthy (env !! "TELEGRAM_DM_ALLOW_FROM")) as [allowFrom|];
    [|destruct (String.eqb policy "open")];
    cbn; destruct c0; cbn; try done; props_simpl; cbn;
    intros [= <-]; eexists; (split; [reflexivity|]); cbn; try done;
    intros p1 [= <-]; by props_simpl.
Qed.

(** X16: with a Telegram bot token, the [channels.telegram] of a patched config
    is rebuilt from the environment: token, [enabled] and the policy
    ([pairing] when none is given).  Under the policy [open] the list
    [allowFrom] is there and holds ["*"]; the ids of
    [TELEGRAM_DM_ALLOW_FROM] are its comma-separated pieces (pieces
    without a comma that give the variable back when joined with commas),
    all kept in order, and only ["*"] is ever added; without that
    variable and without the policy [open] there is no [allowFrom]. *)
Theorem patch_config_telegram env props c' botToken :
  truthy (env !! "TELEGRAM_BOT_TOKEN") = Some botToken →
  patch_config env (VObj props) = Some c' →
  let policy := default "pairing" (truthy (env !! "TELEGRAM_DM_POLICY")) in
  ∃ channels, get c' "channels" = Some (Some channels) ∧
    ∀ ch, named_props channels = Some ch →
      ∃ t, props_get "telegram" ch = Some (VObj t) ∧
        props_get "botToken" t = Some (VStr botToken) ∧
        props_get "enabled" t = Some (VBool true) ∧
        props_get "dmPolicy" t = Some (VStr policy) ∧
        (policy = "open" →
           ∃ ids, props_get "allowFrom" t = Some (arr (VStr <$> ids)) ∧ "*" ∈ ids) ∧
        (∀ allowFrom, truthy (env !! "TELEGRAM_DM_ALLOW_FROM") = Some allowFrom →
           ∃ ids extra, props_get "allowFrom" t = Some (arr (VStr <$> ids ++ extra)) ∧
                        String.concat "," ids = allowFrom ∧
                        Forall (λ id, includes "," id = false) ids ∧
                        (extra = [] ∨ extra = ["*"])) ∧
        (policy ≠ "open" → truthy (env !! "TELEGRAM_DM_ALLOW_FROM") = None →
           props_get "allowFrom" t = None).
Proof.
  intros Htoken Hrun. cbv zeta.
  destruct (patch_config_slot _ _ _ "channels" Hrun) as (props' & -> & Hslot).
  rewrite slot_run_channels, slot_run_app in Hslot.
  destruct (slot_run "channels" (telegram env) _) as [o1|] eqn:Htelegram; [|done].
  cbn in Hslot.
  destruct (telegram_channel _ _ _ _ Htoken Htelegram) as (ch1 & -> & Hch1).
  destruct (later_channels _ _ _ Hslot) as (ch2 & Hch2 & Hlater).
  exists ch2. cbn. split; [by rewrite <- Hch2|].
  intros ch Hch. destruct (Hlater ch Hch) as (p1 & Hp1 & Hsame).
  rewrite Hsame, (Hch1 p1 Hp1). eexists. split; [reflexivity|].
  generalize (default "pairing" (truthy (env !! "TELEGRAM_DM_POLICY"))) as policy.
  intros policy. repeat (split; [done|]).
  destruct (truthy (env !! "TELEGRAM_DM_ALLOW_FROM")) as [allowFrom|]; cbn.
  - split; [|split].
    + intros ->. cbn. eexists. split; [reflexivity|].
      destruct (has_star (split_commas allowFrom)) eqn:Hstar; cbn.
      * by apply has_star_elem.
      * apply elem_of_app. right. apply list_elem_of_here.
    + intros ? [= <-].
      destruct (String.eqb policy "open" && negb (has_star (split_commas allowFrom))).
      * exists (split_commas allowFrom), ["*"].
        split; [done|]. split; [apply concat_split_commas|].
        split; [apply split_commas_pieces|by right].
      * exists (split_commas allowFrom), []. rewrite app_nil_r.
        split; [done|]. split; [apply concat_split_commas|].
        split; [apply split_commas_pieces|by left].
    + done.
  - split; [|split].
    + intros ->. cbn. exists ["*"]. split; [done|]. apply list_elem_of_here.
    + done.
    + intros Hpolicy _. by destruct (String.eqb_spec policy "open").
Qed.

Lemma length_append s1 s2 :
  String.length (s1 +:+ s2) = String.length s1 + String.length s2.
Proof.
  induction s1 as [|c s1 IH]; [done|].
  change (String c s1 +:+ s2) with (String c (s1 +:+ s2)).
  cbn [String.length]. by rewrite IH.
Qed.

Lemma append_assoc s1 s2 s3 : (s1 +:+ s2) +:+ s3 = s1 +:+ s2 +:+ s3.
Proof.
  induction s1 as [|c s1 IH]; [done|].
  change (String c s1 +:+ s2 +:+ s3) with (String c (s1 +:+ s2 +:+ s3)).
  change ((String c s1 +:+ s2) +:+ s3) with (String c ((s1 +:+ s2) +:+ s3)).
  by rewrite IH.
Qed.

Lemma substring_prefix pre rest :
  String.substring 0 (String.length pre) (pre +:+ rest) = pre.
Proof. induction pre as [|c pre IH]; simpl; [by destruct rest|]. f_equal. exact IH. Qed.

Lemma substring_whole s : String.substring 0 (String.length s) s = s.
Proof. induction s as [|c s IH]; simpl; [done|]. f_equal. exact IH. Qed.

Lemma substring_suffix pre rest :
  String.substring (String.length pre) (String.length rest) (pre +:+ rest) = rest.
Proof.
  induction pre as [|c pre IH]; simpl; [|exact IH].
  apply substring_whole.
Qed.

Lemma substring_none n s : String.substring n 0 s = "".
Proof. revert n. induction s as [|c s IH]; intros [|n]; simpl; try done. Qed.

(** Where [indexOf('/')] points: a string without a slash gives [-1];
    otherwise the string is cut at its first slash. *)
Lemma indexOf_slash_cut s :
  if includes "/" s
  then ∃ pre post, s = pre +:+ "/" +:+ post ∧
                   indexOf_slash s = Z.of_nat (String.length pre) ∧
                   includes "/" pre = false
  else indexOf_slash s = (-1)%Z.
Proof.
  induction s as [|c s IH]; [done|].
  change (includes "/" (String c s))
    with (String.prefix "/" (String c s) || includes "/" s).
  cbn [indexOf_slash String.prefix].
  destruct (Ascii.eqb_spec c "/") as [->|Hc].
  - destruct (Ascii.ascii_dec "/" "/"); [|done].
    assert (String.prefix "" s = true) as -> by by destruct s.
    by exists "", s.
  - destruct (Ascii.ascii_dec "/" c); [congruence|]. cbn [orb].
    destruct (includes "/" s).
    + destruct IH as (pre & post & -> & Hidx & Hpre). rewrite Hidx.
      exists (String c pre), post. split; [done|]. split.
      * destruct (Z.ltb_spec (Z.of_nat (String.length pre)) 0); cbn [String.length]; lia.
      * change (includes "/" (String c pre))
          with (String.prefix "/" (String c pre) || includes "/" pre).
        rewrite Hpre. cbn [String.prefix].
        by destruct (Ascii.ascii_dec "/" c).
    + by rewrite IH.
Qed.

Lemma substring_in_range s from to :
  (0 ≤ from ≤ to)%Z → (to ≤ Z.of_nat (String.length s))%Z →
  substring s from to = String.substring (Z.to_nat from) (Z.to_nat (to - from)) s.
Proof.
  intros Hfrom Hto. unfold substring. cbv zeta. f_equal; lia.
Qed.

Lemma substring_no_slash s : substring s 0 (-1) = "".
Proof.
  unfold substring. cbv zeta.
  replace (Z.to_nat _) with 0 by lia. replace (Z.to_nat _) with 0 by lia.
  apply substring_none.
Qed.

(** The split of [CF_AI_GATEWAY_MODEL] at its first slash loses nothing:
    provider, slash and model id make up the value again.  A value without
    a slash is taken as a model id with the empty provider. *)
Lemma model_split raw :
  let slashIdx := indexOf_slash raw in
  let gwProvider := substring raw 0 slashIdx in
  let modelId := substring raw (slashIdx + 1) (Z.of_nat (String.length raw)) in
  includes "/" gwProvider = false ∧
  gwProvider +:+ "/" +:+ modelId = if includes "/" raw then raw else "/" +:+ raw.
Proof.
  cbv zeta. pose proof (indexOf_slash_cut raw) as Hcut.
  destruct (includes "/" raw).
  - destruct Hcut as (pre & post & -> & -> & Hpre).
    assert (Hlen : String.length (pre +:+ "/" +:+ post)
                   = String.length pre + 1 + String.length post).
    { rewrite !length_append. cbn. lia. }
    rewrite !substring_in_range by lia.
    replace (Z.to_nat (Z.of_nat (String.length pre) - 0)) with (String.length pre) by lia.
    replace (Z.to_nat (Z.of_nat (String.length pre) + 1))
      with (String.length (pre +:+ "/")) by (rewrite length_append; cbn; lia).
    replace (Z.to_nat (Z.of_nat (String.length (pre +:+ "/" +:+ post))
                       - (Z.of_nat (String.length pre) + 1)))
      with (String.length post) by lia.
    change (Z.to_nat 0) with 0. rewrite substring_prefix.
    replace (pre +:+ "/" +:+ post) with ((pre +:+ "/") +:+ post) at 1
      by apply append_assoc.
    by rewrite substring_suffix.
  - rewrite Hcut. rewrite substring_no_slash.
    rewrite substring_in_range by lia.
    replace (Z.to_nat (-1 + 1)) with 0 by lia.
    replace (Z.to_nat (Z.of_nat (String.length raw) - (-1 + 1)))
      with (String.length raw) by lia.
    by rewrite substring_whole.
Qed.

Lemma append_nonempty s1 s2 : s1 ≠ "" → s1 +:+ s2 ≠ "".
Proof. destruct s1 as [|c s1]; [done|]. intros _. discriminate. Qed.

Lemma truthy_nonempty s : s ≠ "" → truthy (Some s) = Some s.
Proof. intros Hs. unfold truthy. by destruct (decide (s = "")). Qed.

(** With the account and the gateway of the AI Gateway set there is a base
    URL, whatever the provider. *)
Lemma model_baseUrl_gateway env gwProvider accountId gatewayId :
  truthy (env !! "CF_AI_GATEWAY_ACCOUNT_ID") = Some accountId →
  truthy (env !! "CF_AI_GATEWAY_GATEWAY_ID") = Some gatewayId →
  is_Some (truthy (model_baseUrl env gwProvider)).
Proof.
  intros Ha Hg. unfold model_baseUrl. rewrite Ha, Hg.
  destruct (String.eqb gwProvider "workers-ai");
    rewrite truthy_nonempty; eauto; repeat apply append_nonempty; done.
Qed.

Lemma slot_run_agents env o :
  slot_run "agents" (statements env) o
  = slot_run "agents" (base env ++ model_override env) o.
Proof.
  unfold statements. rewrite !app_assoc. rewrite <- (app_assoc _ (telegram env) _).
  rewrite <- (app_assoc _ (telegram env ++ discord env) _).
  rewrite slot_run_app.
  destruct (slot_run "agents" (base env ++ model_override env) o) as [o'|]; cbn; [|done].
  apply slot_run_untouched. intros s Hs.
  pose proof (channel_keys env) as Hc. rewrite Forall_forall in Hc.
  rewrite <- app_assoc in Hs. by rewrite (Hc s Hs).
Qed.

(** X17: after a patch that went through, [agents] is an object (or an
    array used as one) with a truthy [defaults] that, when it is an
    object, has the workspace of the script.  With a model override in
    force its primary model is the provider prefix followed by the value
    of [CF_AI_GATEWAY_MODEL]: the split at the first slash loses nothing,
    and a value without a slash is taken as a model of the empty
    provider. *)
Theorem patch_config_agents env props c' :
  patch_config env (VObj props) = Some c' →
  ∃ agents a defaults,
    get c' "agents" = Some (Some agents) ∧ named_props agents = Some a ∧
    props_get "defaults" a = Some defaults ∧ truthy_val defaults = true ∧
    ∀ d, named_props defaults = Some d →
      props_get "workspace" d = Some (VStr "/root/clawd") ∧
      ∀ raw accountId gatewayId apiKey,
        truthy (env !! "CF_AI_GATEWAY_MODEL") = Some raw →
        truthy (env !! "CF_AI_GATEWAY_ACCOUNT_ID") = Some accountId →
        truthy (env !! "CF_AI_GATEWAY_GATEWAY_ID") = Some gatewayId →
        truthy (env !! "CLOUDFLARE_AI_GATEWAY_API_KEY") = Some apiKey →
        props_get "model" d =
          Some (VObj [("primary",
                       VStr ("cf-ai-gw-"
                             +:+ (if includes "/" raw then raw else "/" +:+ raw)))]).
Proof.
  intros Hrun. destruct (patch_config_slot _ _ _ "agents" Hrun) as (props' & -> & Hslot).
  rewrite slot_run_agents in Hslot. revert Hslot. cbn [get].
  generalize (props_get "agents" props') as o'. intros o'.
  pose proof (truthy_or_empty (props_get "agents" props)) as Htruthy. revert Htruthy.
  unfold base, model_override.
  destruct (truthy (env !! "CF_AI_GATEWAY_MODEL")) as [raw|] eqn:Hraw.
  - cbv zeta. destruct (model_split raw) as [_ Hsplit]. cbv zeta in Hsplit.
    revert Hsplit.
    pose proof (model_baseUrl_gateway env (substring raw 0 (indexOf_slash raw))) as Hurl.
    revert Hurl.
    generalize (substring raw 0 (indexOf_slash raw)) as gwProvider.
    generalize (substring raw (indexOf_slash raw + 1) (Z.of_nat (String.length raw)))
      as modelId.
    intros modelId gwProvider Hurl Hsplit.
    destruct (truthy (model_baseUrl env gwProvider)) as [baseUrl|] eqn:Hbase;
      [destruct (truthy (env !! "CLOUDFLARE_AI_GATEWAY_API_KEY")) as [apiKey|] eqn:Hkey|];
      cbn; generalize (or_empty (props_get "agents" props)) as c0; intros c0 Htruthy;
      (destruct c0 as [| b | n | s | elems a0 | a0]; try done); cbn;
      props_simpl; cbn;
      (pose proof (truthy_or_empty (props_get "defaults" a0)) as Hui; revert Hui;
       generalize (or_empty (props_get "defaults" a0)) as ui; intros ui Hui);
      (destruct ui as [| ub | un | us | uelems u0 | u0]; try done); cbn in Hui |- *;
      props_simpl; cbn; rewrite ?Hui; cbn; props_simpl; cbn;
      intros [= <-]; eexists _, _, _; (split; [reflexivity|]); (split; [reflexivity|]);
      (split; [by props_simpl|]); (split; [by cbn; rewrite ?Hui|]);
      intros d; cbn; try done; intros [= <-]; (split; [by props_simpl|]);
      intros raw0 accountId gatewayId apiKey0 Hr Ha Hg Hk;
      try done; try (by destruct (Hurl _ _ Ha Hg));
      injection Hr as <-; props_simpl; rewrite <- Hsplit; by rewrite append_assoc.
  - cbn. generalize (or_empty (props_get "agents" props)) as c0. intros c0 Htruthy.
    (destruct c0 as [| b | n | s | elems a0 | a0]; try done); cbn;
      props_simpl; cbn;
      (pose proof (truthy_or_empty (props_get "defaults" a0)) as Hui; revert Hui;
       generalize (or_empty (props_get "defaults" a0)) as ui; intros ui Hui);
      (destruct ui as [| ub | un | us | uelems u0 | u0]; try done); cbn in Hui |- *;
      props_simpl; cbn;
      intros [= <-]; eexists _, _, _; (split; [reflexivity|]); (split; [reflexivity|]);
      (split; [by props_simpl|]); (split; [by cbn; rewrite ?Hui|]);
      intros d; cbn; try done; intros [= <-]; (split; [by props_simpl|]); done.
Qed.



(** A config file that holds a string, and one that holds a list. *)
Lemma patch_file_root_witness :
  patch_file ∅ (Json (VStr "{}")) = Json (VStr "{}") ∧
  patch_file ∅ (Json (arr [num 1])) = Json (arr [num 1]).
Proof.
  split.
  - by apply (patch_file_root ∅ (VStr "{}")).
  - by apply (patch_file_root ∅ (arr [num 1])).
Defined.

(** A gateway configured for another port and mode. *)
Lemma patch_config_gateway_witness :
  let props := [("gateway", VObj [("port", num 3000); ("mode", VStr "remote")])] in
  match patch_config ∅ (VObj props) with
  | Some c' =>
      ∃ gw g, get c' "gateway" = Some (Some gw) ∧ named_props gw = Some g ∧
        props_get "port" g = Some (num 18789) ∧ props_get "mode" g = Some (VStr "local")
  | None => False
  end.
Proof.
  cbv zeta.
  destruct (patch_config ∅ (VObj [("gateway", VObj [("port", num 3000);
                                                    ("mode", VStr "remote")])]))
    as [c'|] eqn:Hrun; [|by vm_compute in Hrun].
  destruct (patch_config_gateway _ _ _ Hrun)
    as (gw & g & Hgw & Hg & Hport & Hmode & _).
  by exists gw, g.
Defined.


(** Telegram open to everyone, with two ids listed. *)
Lemma patch_config_telegram_witness :
  let env : ProcessEnv := {[ "TELEGRAM_BOT_TOKEN" := "123:abc";
                             "TELEGRAM_DM_POLICY" := "open";
                             "TELEGRAM_DM_ALLOW_FROM" := "111,222" ]} in
  match patch_config env (VObj []) with
  | Some c' =>
      ∃ channels, get c' "channels" = Some (Some channels) ∧
        ∀ ch, named_props channels = Some ch →
          ∃ t, props_get "telegram" ch = Some (VObj t) ∧
            props_get "botToken" t = Some (VStr "123:abc") ∧
            (∃ ids, props_get "allowFrom" t = Some (arr (VStr <$> ids)) ∧ "*" ∈ ids) ∧
            ∃ ids extra, props_get "allowFrom" t = Some (arr (VStr <$> ids ++ extra)) ∧
                         String.concat "," ids = "111,222" ∧
                         Forall (λ id, includes "," id = false) ids
  | None => False
  end.
Proof.
  intros env.
  assert (Htoken : truthy (env !! "TELEGRAM_BOT_TOKEN") = Some "123:abc")
    by (vm_compute; reflexivity).
  assert (Hallow : truthy (env !! "TELEGRAM_DM_ALLOW_FROM") = Some "111,222")
    by (vm_compute; reflexivity).
  destruct (patch_config env (VObj [])) as [c'|] eqn:Hrun; [|by vm_compute in Hrun].
  destruct (patch_config_telegram env [] c' "123:abc" Htoken Hrun)
    as (channels & Hch & Hall).
  exists channels. split; [exact Hch|]. intros ch Hnamed.
  destruct (Hall ch Hnamed) as (t & Ht & Hbot & _ & _ & Hopen & Hfrom & _).
  exists t. repeat (split; [done|]). split; [apply Hopen; vm_compute; reflexivity|].
  destruct (Hfrom _ Hallow) as (ids & extra & Hids & Hjoin & Hpieces & _).
  by exists ids, extra.
Defined.

(** A model override without a slash in its name. *)
Lemma patch_config_agents_witness :
  let env : ProcessEnv := {[ "CF_AI_GATEWAY_MODEL" := "llama";
                             "CF_AI_GATEWAY_ACCOUNT_ID" := "acc";
                             "CF_AI_GATEWAY_GATEWAY_ID" := "gw";
                             "CLOUDFLARE_AI_GATEWAY_API_KEY" := "k" ]} in
  match patch_config env (VObj []) with
  | Some c' =>
      ∃ agents a defaults,
        get c' "agents" = Some (Some agents) ∧ named_props agents = Some a ∧
        props_get "defaults" a = Some defaults ∧
        ∀ d, named_props defaults = Some d →
          props_get "workspace" d = Some (VStr "/root/clawd") ∧
          props_get "model" d = Some (VObj [("primary", VStr "cf-ai-gw-/llama")])
  | None => False
  end.
Proof.
  intros env.
  destruct (patch_config env (VObj [])) as [c'|] eqn:Hrun; [|by vm_compute in Hrun].
  destruct (patch_config_agents env [] c' Hrun)
    as (agents & a & defaults & Ha & Hn & Hd & _ & Hall).
  exists agents, a, defaults. repeat (split; [done|]). intros d Hnamed.
  destruct (Hall d Hnamed) as [Hworkspace Hmodel]. split; [done|].
  apply (Hmodel "llama" "acc" "gw" "k"); vm_compute; reflexivity.
Defined.

End Patch.

(** ** The startup script [start-openclaw.sh] *)

Module Startup.

(** Shell arithmetic is done on signed 64-bit integers. *)
Definition wrap64 (z : Z) : Z :=
  ((z + 2 ^ 63) mod 2 ^ 64 - 2 ^ 63)%Z.

(** *** The supervisor loop *)

(** One turn of the loop as the clock and the gateway make it: the two
    readings of [date +%s], before the gateway starts and after it exits,
    and the exit code. *)
Record Run : Type := mkRun {
  started : Z;
  exit_code : Z;
  ended : Z;
}.

(** The local variables of [run_supervisor] that live across turns. *)
Record Supervisor : Type := mkSupervisor {
  rapid_crash_count : Z;
  last_start_time : Z;
}.

Inductive Event : Type :=
(* cold-start setup *)
| SetupRclone
| RestoreFromR2
| Onboard (auth_choice : string)
| PatchConfig
| BootstrapWorkspace
| StartSyncLoop
| Doctor
| RestorePreDoctor
| CleanLocks
| DumpConfig
| TouchMarker
(* supervisor *)
| RemoveLockFiles
| Gateway (code : Z)
| Sleep (seconds : Z).

Definition MAX_RAPID_CRASHES : Z := 5.
Definition RAPID_CRASH_WINDOW : Z := 30.

Definition supervisor_start : Supervisor := mkSupervisor 0 0.

(** The seconds slept after a turn that leaves the counter at [count]. *)
Definition restart_delay (count : Z) : Z :=
  if (count >=? MAX_RAPID_CRASHES)%Z then
    let backoff := wrap64 (count * 10) in
    if (backoff >? 120)%Z then 120%Z else backoff
  else 3%Z.

(** The body of [while true]. *)
Definition supervisor_turn (sv : Supervisor) (r : Run) : Supervisor * list Event :=
  let current_time := started r in
  let last_start_time := current_time in
  let elapsed := wrap64 (ended r - last_start_time) in
  let rapid_crash_count :=
    if (elapsed <? RAPID_CRASH_WINDOW)%Z
    then wrap64 (rapid_crash_count sv + 1)
    else 0%Z in
  (mkSupervisor rapid_crash_count last_start_time,
   [RemoveLockFiles; Gateway (exit_code r); Sleep (restart_delay rapid_crash_count)]).

(** Several turns in a row. *)
Fixpoint supervise (sv : Supervisor) (runs : list Run) : Supervisor * list Event :=
  match runs with
  | [] => (sv, [])
  | r :: rest =>
      let '(sv', events) := supervisor_turn sv r in
      let '(sv'', events') := supervise sv' rest in
      (sv'', events ++ events')
  end.

(** How a piece of the script ends within the turns observed. *)
Inductive End : Type :=
| Returned            (* control goes on to the next command *)
| Exited (code : Z)   (* the shell exits *)
| Running.            (* still inside, after all the turns observed *)

(** [run_supervisor], observed for [fuel] turns of its loop; turn number
    [i] of the container is described by [runs i]. *)
Fixpoint supervisor_loop (fuel : nat) (runs : nat → Run) (i : nat) (sv : Supervisor)
  : list Event * End :=
  match fuel with
  | O => ([], Running)
  | S fuel' =>
      let '(sv', events) := supervisor_turn sv (runs i) in
      let '(events', e) := supervisor_loop fuel' runs (S i) sv' in
      (events ++ events', e)
  end.

Definition run_supervisor (fuel : nat) (runs : nat → Run) : list Event * End :=
  supervisor_loop fuel runs 0 supervisor_start.

(** The delays of a trace, in order. *)
Fixpoint sleeps (events : list Event) : list Z :=
  match events with
  | [] => []
  | Sleep seconds :: rest => seconds :: sleeps rest
  | _ :: rest => sleeps rest
  end.

(** *** The entrypoint *)

(** The files the gate and the setup steps look at. *)
Record Disk : Type := mkDisk {
  setup_marker : bool;          (* /tmp/.openclaw-setup-done *)
  config_file : Patch.File;     (* /root/.openclaw/openclaw.json *)
  pre_doctor : Patch.File;      (* openclaw.json.pre-doctor *)
}.

(** What the commands the script calls answer and do. *)
Record Commands : Type := mkCommands {
  pgrep_gateway : bool;                          (* pgrep -f "openclaw gateway" *)
  environ : gmap string string;
  restored : Patch.File → Patch.File;            (* the config after the R2 restore *)
  onboarded : string → Patch.File;               (* the config after onboard *)
  bootstrap_dir : bool;                          (* [ -d /root/workspace-bootstrap ] *)
  doctored : Patch.File → Patch.File;            (* the config after doctor --fix *)
  exposes_secrets : Patch.File → bool;           (* the two greps on the config *)
  gateway_runs : nat → Run;
}.

Definition file_exists (f : Patch.File) : bool :=
  match f with
  | Patch.Missing => false
  | _ => true
  end.

(** [[ -n "$NAME" ]] *)
Definition nonempty (env : gmap string string) (name : string) : bool :=
  bool_decide (is_Some (truthy (env !! name))).

Definition r2_configured (env : gmap string string) : bool :=
  nonempty env "R2_ACCESS_KEY_ID" && nonempty env "R2_SECRET_ACCESS_KEY"
  && nonempty env "CF_ACCOUNT_ID".

(** The [--auth-choice] given to [openclaw onboard]; empty for none. *)
Definition auth_choice (env : gmap string string) : string :=
  if nonempty env "CLOUDFLARE_AI_GATEWAY_API_KEY" && nonempty env "CF_AI_GATEWAY_ACCOUNT_ID"
     && nonempty env "CF_AI_GATEWAY_GATEWAY_ID"
  then "cloudflare-ai-gateway-api-key"
  else if nonempty env "ANTHROPIC_API_KEY" then "apiKey"
  else if nonempty env "OPENAI_API_KEY" then "openai-api-key"
  else "".

(** [cp src dst 2>/dev/null || true] *)
Definition cp (src dst : Patch.File) : Patch.File :=
  if file_exists src then src else dst.

(** The cold path from "Running full setup" to the writing of the marker.
    Every step is followed by [|| echo WARNING] or [|| true]; none stops
    the script. *)
Definition cold_setup (c : Commands) (d : Disk) : list Event * Disk :=
  let env := environ c in
  (* restore from R2 *)
  let '(ev_restore, config) :=
    if r2_configured env
    then ([SetupRclone; RestoreFromR2], restored c (config_file d))
    else ([], config_file d) in
  (* onboard, only if no config exists yet *)
  let '(ev_onboard, config) :=
    if file_exists config
    then ([], config)
    else ([Onboard (auth_choice env)], onboarded c (auth_choice env)) in
  (* patch config *)
  let config := Patch.patch_file env config in
  (* bootstrap workspace files *)
  let ev_bootstrap := if bootstrap_dir c then [BootstrapWorkspace] else [] in
  (* background sync loop *)
  let ev_sync := if r2_configured env then [StartSyncLoop] else [] in
  (* doctor *)
  let backup := cp config (pre_doctor d) in
  let config := doctored c config in
  let '(ev_rollback, config) :=
    if exposes_secrets c config
    then ([RestorePreDoctor], cp backup config)
    else ([], config) in
  (ev_restore ++ ev_onboard ++ [PatchConfig] ++ ev_bootstrap ++ ev_sync
   ++ [Doctor] ++ ev_rollback ++ [CleanLocks; DumpConfig],
   mkDisk (setup_marker d) config backup).

(** What is seen of one invocation of the script. *)
Record Outcome : Type := mkOutcome {
  trace : list Event;
  disk : Disk;
  ending : End;
}.

(** The script, observed for [fuel] turns of the supervisor. *)
Definition entrypoint (fuel : nat) (c : Commands) (d : Disk) : Outcome :=
  if pgrep_gateway c then
    (* "OpenClaw gateway is already running, exiting." *)
    mkOutcome [] d (Exited 0)
  else
    let warm :=
      if setup_marker d && file_exists (config_file d) then
        (* warm restart: skip to the gateway *)
        run_supervisor fuel (gateway_runs c)
      else ([], Returned) in
    match warm with
    | (events, Returned) =>
        (* cold start *)
        let '(setup, d') := cold_setup c d in
        let d'' := mkDisk true (config_file d') (pre_doctor d') in
        let '(events', e) := run_supervisor fuel (gateway_runs c) in
        mkOutcome (events ++ setup ++ [TouchMarker] ++ events') d''
          match e with
          | Returned => Exited 0     (* end of the script *)
          | _ => e
          end
    | (events, e) => mkOutcome events d e
    end.

Definition is_setup (e : Event) : bool :=
  match e with
  | SetupRclone | RestoreFromR2 | Onboard _ | PatchConfig | BootstrapWorkspace
  | StartSyncLoop | Doctor | RestorePreDoctor | CleanLocks | DumpConfig => true
  | _ => false
  end.

Definition is_supervision (e : Event) : bool :=
  match e with
  | RemoveLockFiles | Gateway _ | Sleep _ => true
  | _ => false
  end.

(** A turn whose two clock readings are Unix times in order. *)
Definition clock_ok (r : Run) : Prop :=
  (0 ≤ started r ≤ ended r ∧ ended r < 2 ^ 62)%Z.

(** The gateway ran for less than the rapid-crash window. *)
Definition rapid (r : Run) : Prop :=
  clock_ok r ∧ (ended r - started r < 30)%Z.

(** The delay after the [k]-th of a row of rapid crashes. *)
Definition delay_after (k : Z) : Z :=
  if (k <? 5)%Z then 3%Z else Z.min (k * 10) 120.

(** Commands for a container without R2 and without secrets, where
    onboarding writes an empty document and every gateway run crashes
    after a second. *)
Definition quiet_commands (pgrep : bool) : Commands :=
  mkCommands pgrep ∅ (λ f, f) (λ _, Patch.Json (Patch.VObj [])) false (λ f, f)
             (λ _, false) (λ _, mkRun 1000 1 1001).

(** *** Facts about the supervisor *)

Lemma wrap64_small z : (- 2 ^ 63 ≤ z < 2 ^ 63)%Z → wrap64 z = z.
Proof. intros Hz. unfold wrap64. rewrite Z.mod_small; lia. Qed.

Lemma restart_delay_small count :
  (0 ≤ count < 2 ^ 59)%Z → restart_delay count = delay_after count.
Proof.
  intros Hc. unfold restart_delay, delay_after, MAX_RAPID_CRASHES.
  rewrite wrap64_small by lia.
  destruct (Z.geb_spec count 5), (Z.ltb_spec count 5); try lia.
  destruct (Z.gtb_spec (count * 10) 120); lia.
Qed.

(** The loop never sleeps between 3 and 50 seconds. *)
Lemma delay_after_range k : delay_after k = 3%Z ∨ (50 ≤ delay_after k ≤ 120)%Z.
Proof. unfold delay_after. destruct (Z.ltb_spec k 5); [by left|right; lia]. Qed.

Lemma supervisor_turn_rapid sv r :
  rapid r → (0 ≤ rapid_crash_count sv < 2 ^ 59 - 1)%Z →
  supervisor_turn sv r =
    (mkSupervisor (rapid_crash_count sv + 1) (started r),
     [RemoveLockFiles; Gateway (exit_code r);
      Sleep (delay_after (rapid_crash_count sv + 1))]).
Proof.
  intros [[Hstart Hend] Hrapid] Hcount. unfold supervisor_turn, RAPID_CRASH_WINDOW.
  rewrite (wrap64_small (ended r - started r)) by lia.
  destruct (Z.ltb_spec (ended r - started r) 30); [|lia].
  rewrite wrap64_small by lia. by rewrite restart_delay_small by lia.
Qed.

Lemma supervisor_turn_long sv r :
  clock_ok r → (30 ≤ ended r - started r)%Z →
  supervisor_turn sv r =
    (mkSupervisor 0 (started r), [RemoveLockFiles; Gateway (exit_code r); Sleep 3]).
Proof.
  intros [Hstart Hend] Hlong. unfold supervisor_turn, RAPID_CRASH_WINDOW.
  rewrite (wrap64_small (ended r - started r)) by lia.
  by destruct (Z.ltb_spec (ended r - started r) 30); [lia|].
Qed.

Lemma fmap_seq_S {A} (g : nat → A) n : ∀ a,
  g <$> seq (S a) n = (λ k, g (S k)) <$> seq a n.
Proof. induction n as [|n IH]; intros a; cbn; [done|]. by rewrite IH. Qed.

(** A row of rapid crashes counts up from where the counter stood. *)
Lemma supervise_rapid runs : ∀ sv,
  Forall rapid runs →
  (0 ≤ rapid_crash_count sv)%Z →
  (rapid_crash_count sv + Z.of_nat (length runs) < 2 ^ 59)%Z →
  rapid_crash_count (fst (supervise sv runs))
    = (rapid_crash_count sv + Z.of_nat (length runs))%Z ∧
  sleeps (snd (supervise sv runs))
    = (λ k, delay_after (rapid_crash_count sv + Z.of_nat k)) <$> seq 1 (length runs).
Proof.
  induction runs as [|r runs IH]; intros sv Hrapid Hlo Hhi; cbn [supervise length].
  - cbn. split; [lia|done].
  - apply Forall_cons in Hrapid as [Hr Hrapid]. cbn [length] in Hhi.
    rewrite supervisor_turn_rapid by (done || lia).
    destruct (IH (mkSupervisor (rapid_crash_count sv + 1) (started r)) Hrapid)
      as [Hcount Hsleeps]; cbn [rapid_crash_count]; [lia|lia|].
    destruct (supervise _ runs) as [sv'' events'] eqn:Hrest.
    cbn [fst snd rapid_crash_count] in *. split; [lia|].
    cbn [app sleeps seq fmap list_fmap]. f_equal.
    rewrite Hsleeps, (fmap_seq_S _ _ 1).
    apply list_fmap_ext. intros _ k _. f_equal. lia.
Qed.

(** C2, as the code has it.  After [N] rapid crashes in a row, counted
    from a counter at 0, the counter is [N], and the delay after the [k]-th
    of them was 3 seconds when [k < 5] and [min (k * 10) 120] seconds from
    the fifth on.  The next turn adds one to the counter when the gateway
    ran for under 30 seconds, and otherwise sets it to 0 and waits 3
    seconds. *)
Theorem supervisor_crash_window (sv : Supervisor) (runs : list Run) (r : Run) :
  rapid_crash_count sv = 0%Z →
  Forall rapid runs →
  (Z.of_nat (length runs) < 2 ^ 59 - 1)%Z →
  clock_ok r →
  let N := Z.of_nat (length runs) in
  let sv' := fst (supervise sv runs) in
  rapid_crash_count sv' = N ∧
  sleeps (snd (supervise sv runs)) = (λ k, delay_after (Z.of_nat k)) <$> seq 1 (length runs) ∧
  if (ended r - started r <? 30)%Z
  then rapid_crash_count (fst (supervisor_turn sv' r)) = (N + 1)%Z ∧
       sleeps (snd (supervisor_turn sv' r)) = [delay_after (N + 1)]
  else rapid_crash_count (fst (supervisor_turn sv' r)) = 0%Z ∧
       sleeps (snd (supervisor_turn sv' r)) = [3%Z].
Proof.
  intros Hzero Hrapid Hlen Hclock N sv'.
  destruct (supervise_rapid runs sv Hrapid) as [Hcount Hsleeps]; [lia|lia|].
  rewrite Hzero in Hcount, Hsleeps. cbn in Hcount.
  assert (HN : rapid_crash_count sv' = N) by (subst sv' N; lia).
  split; [exact HN|]. split; [exact Hsleeps|].
  destruct (Z.ltb_spec (ended r - started r) 30) as [Hshort|Hlong].
  - rewrite supervisor_turn_rapid by (done || lia). cbn. by rewrite HN.
  - by rewrite supervisor_turn_long.
Qed.

(** Seven crashes after one second each, then a run of a minute. *)
Lemma supervisor_crash_window_witness :
  let runs := replicate 7 (mkRun 1000 1 1001) in
  sleeps (snd (supervise supervisor_start runs)) = [3; 3; 3; 3; 50; 60; 70]%Z ∧
  rapid_crash_count
    (fst (supervisor_turn (fst (supervise supervisor_start runs)) (mkRun 2000 1 2060)))
    = 0%Z.
Proof.
  cbv zeta.
  assert (Hrapid : Forall rapid (replicate 7 (mkRun 1000 1 1001))).
  { repeat constructor; cbn; lia. }
  assert (Hclock : clock_ok (mkRun 2000 1 2060)) by (repeat split; cbn; lia).
  destruct (supervisor_crash_window supervisor_start _ (mkRun 2000 1 2060)
              eq_refl Hrapid ltac:(cbn; lia) Hclock) as (_ & Hsleeps & Hturn).
  split; [exact Hsleeps | exact (proj1 Hturn)].
Defined.

(** C2 as stated fails at the fifth rapid crash in a row: the loop waits
    50 seconds, where [min ((N - 4) * 10) 120] is 10 for [N = 5]. *)
Lemma fifth_rapid_crash_waits_50 :
  let runs := replicate 5 (mkRun 1000 1 1001) in
  Forall rapid runs ∧
  last (sleeps (snd (supervise supervisor_start runs))) = Some 50%Z ∧
  Z.min ((5 - 4) * 10) 120 = 10%Z ∧
  last (sleeps (snd (supervise supervisor_start runs)))
    ≠ Some (Z.min ((5 - 4) * 10) 120).
Proof.
  cbv zeta. split; [repeat constructor; cbn; lia|].
  split; [vm_compute; reflexivity|]. split; [reflexivity|].
  vm_compute. discriminate.
Qed.

(** *** Facts about the entrypoint *)

Lemma supervisor_loop_running fuel runs : ∀ i sv,
  snd (supervisor_loop fuel runs i sv) = Running.
Proof.
  induction fuel as [|fuel IH]; intros i sv; cbn [supervisor_loop]; [done|].
  destruct (supervisor_turn sv (runs i)) as [sv' events].
  specialize (IH (S i) sv').
  by destruct (supervisor_loop fuel runs (S i) sv').
Qed.

Lemma supervisor_loop_events fuel runs : ∀ i sv,
  Forall (λ e, is_supervision e = true) (fst (supervisor_loop fuel runs i sv)) ∧
  length (sleeps (fst (supervisor_loop fuel runs i sv))) = fuel.
Proof.
  induction fuel as [|fuel IH]; intros i sv; cbn [supervisor_loop]; [by split|].
  destruct (supervisor_turn sv (runs i)) as [sv' events] eqn:Hturn.
  unfold supervisor_turn in Hturn. injection Hturn as _ <-.
  specialize (IH (S i) sv').
  destruct (supervisor_loop fuel runs (S i) sv') as [events' e].
  cbn [fst] in *. destruct IH as [Hall Hlen]. split.
  - by repeat constructor.
  - cbn. by rewrite Hlen.
Qed.

(** Membership in a list written out. *)
Ltac elem_now := by repeat first [apply list_elem_of_here | apply list_elem_of_further].

Ltac not_elem H :=
  repeat (apply elem_of_cons in H as [H|H]; [discriminate|]); by apply elem_of_nil in H.

(** The patch always leaves a config file. *)
Lemma patch_file_exists env f : file_exists (Patch.patch_file env f) = true.
Proof.
  unfold Patch.patch_file.
  destruct f as [| |doc]; [| |by destruct (Patch.patch_config env doc)];
    by destruct (Patch.patch_config_empty env) as [c ->].
Qed.

(** The cold path step by step: what is run, in order, and what is left
    on the disk. *)
Lemma cold_setup_steps c d :
  let env := environ c in
  let found := if r2_configured env then restored c (config_file d) else config_file d in
  let initial := if file_exists found then found else onboarded c (auth_choice env) in
  let patched := Patch.patch_file env initial in
  let fixed := doctored c patched in
  cold_setup c d =
    ((if r2_configured env then [SetupRclone; RestoreFromR2] else [])
     ++ (if file_exists found then [] else [Onboard (auth_choice env)])
     ++ [PatchConfig]
     ++ (if bootstrap_dir c then [BootstrapWorkspace] else [])
     ++ (if r2_configured env then [StartSyncLoop] else [])
     ++ [Doctor]
     ++ (if exposes_secrets c fixed then [RestorePreDoctor] else [])
     ++ [CleanLocks; DumpConfig],
     mkDisk (setup_marker d) (if exposes_secrets c fixed then patched else fixed) patched).
Proof.
  cbv zeta. unfold cold_setup.
  destruct (r2_configured (environ c));
    [destruct (file_exists (restored c (config_file d)))
    |destruct (file_exists (config_file d))];
    cbv beta iota zeta; unfold cp; rewrite !patch_file_exists;
    match goal with
    | |- context [exposes_secrets c (doctored c ?patched)] =>
        destruct (exposes_secrets c (doctored c patched))
    end; reflexivity.
Qed.

Lemma cold_setup_events c d :
  Forall (λ e, is_setup e = true) (fst (cold_setup c d)) ∧
  PatchConfig ∈ fst (cold_setup c d) ∧
  Doctor ∈ fst (cold_setup c d) ∧
  (RestoreFromR2 ∈ fst (cold_setup c d) ↔ r2_configured (environ c) = true).
Proof.
  unfold cold_setup.
  destruct (r2_configured (environ c));
    [destruct (file_exists (restored c (config_file d)))
    |destruct (file_exists (config_file d))];
    destruct (bootstrap_dir c); destruct (exposes_secrets c _);
    cbn [fst app];
    (split; [by repeat constructor|]);
    (split; [elem_now|]); (split; [elem_now|]);
    (split; [intros H; first [done | not_elem H] | intros H; first [elem_now | done]]).
Qed.

(** C8: when [pgrep] finds a gateway, the script exits with code 0
    having run nothing: no setup step, no turn of the supervisor, and the
    disk is as it was. *)
Theorem entrypoint_guard fuel c d :
  pgrep_gateway c = true →
  entrypoint fuel c d = mkOutcome [] d (Exited 0).
Proof. intros Hpgrep. unfold entrypoint. by rewrite Hpgrep. Qed.

(** C1: past the guard, the script never ends, however long it is
    observed.  With the marker and the config file both there, it runs the
    supervisor and nothing else, and leaves the disk alone.  With either
    missing, it runs the setup steps (the patch and the doctor among them,
    the restore when R2 is configured), then writes the marker, then runs
    the supervisor.  The setup steps are, in this order: the restore from
    R2 when R2 is configured; the onboarding when there is no config file
    by then; the patch; the workspace bootstrap when its directory is
    there; the start of the sync loop when R2 is configured; the doctor,
    undone when its config matches the greps for exposed secrets; the
    cleaning of the locks and the dump of the config.  They leave the
    patched config as the [pre-doctor] copy, and as the config what the
    doctor made of it, or the patched config when the doctor was undone. *)
Theorem entrypoint_gate fuel c d :
  pgrep_gateway c = false →
  let out := entrypoint fuel c d in
  let supervision := fst (run_supervisor fuel (gateway_runs c)) in
  ending out = Running ∧
  Forall (λ e, is_supervision e = true) supervision ∧
  length (sleeps supervision) = fuel ∧
  if setup_marker d && file_exists (config_file d)
  then trace out = supervision ∧ disk out = d
  else let setup := fst (cold_setup c d) in
       trace out = setup ++ [TouchMarker] ++ supervision ∧
       Forall (λ e, is_setup e = true) setup ∧
       PatchConfig ∈ setup ∧ Doctor ∈ setup ∧
       (RestoreFromR2 ∈ setup ↔ r2_configured (environ c) = true) ∧
       setup_marker (disk out) = true ∧
       config_file (disk out) = config_file (snd (cold_setup c d)) ∧
       let env := environ c in
       let found := if r2_configured env then restored c (config_file d)
                    else config_file d in
       let initial := if file_exists found then found
                      else onboarded c (auth_choice env) in
       let patched := Patch.patch_file env initial in
       let fixed := doctored c patched in
       setup = (if r2_configured env then [SetupRclone; RestoreFromR2] else [])
               ++ (if file_exists found then [] else [Onboard (auth_choice env)])
               ++ [PatchConfig]
               ++ (if bootstrap_dir c then [BootstrapWorkspace] else [])
               ++ (if r2_configured env then [StartSyncLoop] else [])
               ++ [Doctor]
               ++ (if exposes_secrets c fixed then [RestorePreDoctor] else [])
               ++ [CleanLocks; DumpConfig] ∧
       disk out = mkDisk true (if exposes_secrets c fixed then patched else fixed)
                         patched.
Proof.
  intros Hpgrep out supervision. subst out supervision.
  unfold entrypoint, run_supervisor. rewrite Hpgrep.
  pose proof (supervisor_loop_running fuel (gateway_runs c) 0 supervisor_start) as Hrun.
  destruct (supervisor_loop_events fuel (gateway_runs c) 0 supervisor_start)
    as [Hevents Hturns].
  destruct (supervisor_loop fuel (gateway_runs c) 0 supervisor_start) as [events e].
  cbn in Hrun, Hevents, Hturns. subst e.
  destruct (setup_marker d && file_exists (config_file d)).
  - cbn. by repeat split.
  - destruct (cold_setup_events c d) as (Hsetup & Hpatch & Hdoctor & Hrestore).
    pose proof (cold_setup_steps c d) as Hsteps. cbv zeta in Hsteps.
    destruct (cold_setup c d) as [setup d']. injection Hsteps as Hsteps Hdisk.
    cbn in *. repeat (split; [done|]). by rewrite Hdisk.
Qed.

Lemma entrypoint_guard_witness :
  entrypoint 3 (quiet_commands true) (mkDisk false Patch.Missing Patch.Missing)
    = mkOutcome [] (mkDisk false Patch.Missing Patch.Missing) (Exited 0).
Proof. apply entrypoint_guard. reflexivity. Defined.

(** A marker left behind without its config file: the cold path. *)
Lemma entrypoint_gate_witness :
  let out := entrypoint 2 (quiet_commands false) (mkDisk true Patch.Missing Patch.Missing) in
  let patched := Patch.patch_file ∅ (Patch.Json (Patch.VObj [])) in
  ending out = Running ∧
  trace out = [Onboard ""; PatchConfig; Doctor; CleanLocks; DumpConfig; TouchMarker;
               RemoveLockFiles; Gateway 1; Sleep 3;
               RemoveLockFiles; Gateway 1; Sleep 3] ∧
  disk out = mkDisk true patched patched.
Proof.
  cbv zeta.
  destruct (entrypoint_gate 2 (quiet_commands false)
              (mkDisk true Patch.Missing Patch.Missing) eq_refl)
    as (Hrun & _ & _ & Hcold).
  cbn [setup_marker config_file file_exists andb] in Hcold. cbv zeta in Hcold.
  destruct Hcold as (Htrace & _ & _ & _ & _ & _ & _ & Hsetup & Hdisk).
  split; [exact Hrun|]. split.
  - rewrite Htrace, Hsetup. vm_compute. reflexivity.
  - rewrite Hdisk. reflexivity.
Defined.

(** *** More on the supervisor and the cold start *)

Lemma supervise_app runs1 runs2 : ∀ sv,
  supervise sv (runs1 ++ runs2) =
    (fst (supervise (fst (supervise sv runs1)) runs2),
     snd (supervise sv runs1) ++ snd (supervise (fst (supervise sv runs1)) runs2)).
Proof.
  induction runs1 as [|r runs1 IH]; intros sv; cbn [app supervise].
  - cbn. by destruct (supervise sv runs2).
  - destruct (supervisor_turn sv r) as [sv' events]. rewrite IH.
    destruct (supervise sv' runs1) as [sv1 events1]. cbn [fst snd].
    destruct (supervise sv1 runs2) as [sv2 events2]. cbn. by rewrite app_assoc.
Qed.

Lemma sleeps_app events1 events2 :
  sleeps (events1 ++ events2) = sleeps events1 ++ sleeps events2.
Proof.
  induction events1 as [|e events1 IH]; [done|]. destruct e; cbn; by rewrite ?IH.
Qed.

(** X18: the exit code of the gateway plays no part in the supervisor: it
    restarts after a clean exit as after a crash, with the same counter and
    the same delays. *)
Theorem supervise_exit_codes (code : Run → Z) runs : ∀ sv,
  let runs' := (λ r, mkRun (started r) (code r) (ended r)) <$> runs in
  fst (supervise sv runs') = fst (supervise sv runs) ∧
  sleeps (snd (supervise sv runs')) = sleeps (snd (supervise sv runs)) ∧
  length (snd (supervise sv runs)) = 3 * length runs.
Proof.
  cbv zeta. induction runs as [|r runs IH]; intros sv; [done|].
  cbn [fmap list_fmap supervise]. unfold supervisor_turn. cbn [started ended exit_code].
  set (sv' := mkSupervisor _ _). destruct (IH sv') as (Hsv & Hsleeps & Hlen).
  destruct (supervise sv' ((λ r, mkRun (started r) (code r) (ended r)) <$> runs)).
  destruct (supervise sv' runs). cbn [fst snd] in *. subst.
  split; [done|]. split; [cbn; by rewrite Hsleeps|]. cbn. rewrite Hlen. lia.
Qed.

Lemma restart_delay_range count :
  (0 ≤ count < 2 ^ 59)%Z →
  restart_delay count = 3%Z ∨ (50 ≤ restart_delay count ≤ 120)%Z.
Proof.
  intros Hc. rewrite restart_delay_small by done. apply delay_after_range.
Qed.

(** X19: whatever the clock reads and however the gateway exits, the
    supervisor waits 3 seconds or between 50 and 120 seconds before each
    restart, and never less than 3. *)
Theorem supervise_delays runs : ∀ sv,
  (0 ≤ rapid_crash_count sv)%Z →
  (rapid_crash_count sv + Z.of_nat (length runs) < 2 ^ 59)%Z →
  Forall (λ seconds, seconds = 3 ∨ 50 ≤ seconds ≤ 120)%Z
         (sleeps (snd (supervise sv runs))) ∧
  (0 ≤ rapid_crash_count (fst (supervise sv runs))
     ≤ rapid_crash_count sv + Z.of_nat (length runs))%Z.
Proof.
  induction runs as [|r runs IH]; intros sv Hlo Hhi; cbn [supervise length] in *.
  - cbn. split; [constructor|lia].
  - unfold supervisor_turn.
    set (count := if (_ <? RAPID_CRASH_WINDOW)%Z then _ else 0%Z).
    assert (Hcount : (0 ≤ count ≤ rapid_crash_count sv + 1)%Z).
    { subst count. destruct (_ <? RAPID_CRASH_WINDOW)%Z; [|lia].
      rewrite wrap64_small by lia. lia. }
    destruct (IH (mkSupervisor count (started r))) as [Hsleeps Hend];
      cbn [rapid_crash_count]; [lia|lia|].
    destruct (supervise _ runs) as [sv'' events]. cbn [fst snd rapid_crash_count] in *.
    split; [|lia]. cbn. constructor; [|done]. apply restart_delay_range. lia.
Qed.

(** X20: one run of 30 seconds or more wipes the history: after it, the
    counter and the delays are those of the rapid crashes that follow,
    whatever came before. *)
Theorem supervise_forgets sv before long after :
  clock_ok long → (30 ≤ ended long - started long)%Z →
  Forall rapid after → (Z.of_nat (length after) < 2 ^ 59)%Z →
  rapid_crash_count (fst (supervise sv (before ++ long :: after)))
    = Z.of_nat (length after) ∧
  sleeps (snd (supervise sv (before ++ long :: after)))
    = sleeps (snd (supervise sv before)) ++ [3%Z]
      ++ ((λ k, delay_after (Z.of_nat k)) <$> seq 1 (length after)).
Proof.
  intros Hclock Hlong Hrapid Hlen. rewrite supervise_app. cbn [fst snd].
  cbn [supervise]. rewrite supervisor_turn_long by done.
  destruct (supervise_rapid after (mkSupervisor 0 (started long)) Hrapid)
    as [Hcount Hsleeps]; cbn [rapid_crash_count]; [lia|lia|].
  destruct (supervise _ after) as [sv' events]. cbn [fst snd rapid_crash_count] in *.
  split; [lia|]. rewrite sleeps_app. cbn. by rewrite Hsleeps.
Qed.

(** X21: the config a cold start leaves behind.  The patch always leaves a
    config file, which is kept as the [pre-doctor] copy.  The final config
    is what the doctor made of it, unless that matches one of the two
    greps for exposed secrets: then it is the [pre-doctor] copy again.  So
    a final config that matches the greps is the patched config itself. *)
Theorem cold_setup_doctor c d :
  let d' := snd (cold_setup c d) in
  setup_marker d' = setup_marker d ∧
  (∃ before, pre_doctor d' = Patch.patch_file (environ c) before) ∧
  file_exists (pre_doctor d') = true ∧
  config_file d' = (if exposes_secrets c (doctored c (pre_doctor d'))
                    then pre_doctor d' else doctored c (pre_doctor d')) ∧
  (exposes_secrets c (config_file d') = true → config_file d' = pre_doctor d').
Proof.
  cbv zeta. unfold cold_setup.
  destruct (r2_configured (environ c));
    [destruct (file_exists (restored c (config_file d)))
    |destruct (file_exists (config_file d))];
    cbv beta iota zeta; unfold cp at 2; rewrite patch_file_exists;
    match goal with
    | |- context [exposes_secrets c (doctored c ?patched)] =>
        destruct (exposes_secrets c (doctored c patched)) eqn:Hexposed
    end;
    cbn [snd setup_marker pre_doctor config_file]; unfold cp;
    rewrite ?patch_file_exists, ?Hexposed;
    (split; [done|]); (split; [by eexists|]); (split; [done|]);
    (split; [done|]); congruence.
Qed.

(** X22: two invocations in one container: when the first gets past the guard
    and leaves a config file, a second one that gets past the guard takes
    the warm path.  It runs no setup step, leaves the disk alone, and goes
    on supervising. *)
Theorem entrypoint_restart fuel fuel' c c' d :
  pgrep_gateway c = false → pgrep_gateway c' = false →
  let first := entrypoint fuel c d in
  file_exists (config_file (disk first)) = true →
  let second := entrypoint fuel' c' (disk first) in
  setup_marker (disk first) = true ∧
  disk second = disk first ∧
  trace second = fst (run_supervisor fuel' (gateway_runs c')) ∧
  Forall (λ e, is_supervision e = true) (trace second) ∧
  ending second = Running.
Proof.
  intros Hpgrep Hpgrep'. cbv zeta.
  assert (Hmarker : setup_marker (disk (entrypoint fuel c d)) = true).
  { unfold entrypoint, run_supervisor. rewrite Hpgrep.
    pose proof (supervisor_loop_running fuel (gateway_runs c) 0 supervisor_start) as Hrun.
    destruct (supervisor_loop fuel (gateway_runs c) 0 supervisor_start) as [events e].
    cbn in Hrun. subst e.
    destruct (setup_marker d && file_exists (config_file d)) eqn:Hwarm; cbn.
    - by apply andb_true_iff in Hwarm as [-> _].
    - by destruct (cold_setup c d). }
  intros Hconfig. split; [done|].
  generalize dependent (disk (entrypoint fuel c d)). intros d1 Hmarker Hconfig.
  unfold entrypoint, run_supervisor. rewrite Hpgrep', Hmarker, Hconfig. cbn [andb].
  pose proof (supervisor_loop_running fuel' (gateway_runs c') 0 supervisor_start) as Hrun.
  destruct (supervisor_loop_events fuel' (gateway_runs c') 0 supervisor_start)
    as [Hevents _].
  destruct (supervisor_loop fuel' (gateway_runs c') 0 supervisor_start) as [events e].
  cbn in Hrun, Hevents. subst e. by cbn.
Qed.

(** X23: the worker and the script together: the script takes R2 for
    configured exactly when the worker holds the two R2 credentials and
    the account id, each with a non-empty value. *)
Theorem r2_configured_from_worker (env : Env.MoltbotEnv) (penv : gmap string string) :
  (∀ name, name ∈ ["R2_ACCESS_KEY_ID"; "R2_SECRET_ACCESS_KEY"; "CF_ACCOUNT_ID"] →
           penv !! name = Env.buildEnvVars env !! name) →
  r2_configured penv = r2_configured env.
Proof.
  intros Hsame. destruct (Env.buildEnvVars_r2 env) as (Hid & Hsecret & Haccount).
  unfold r2_configured, nonempty.
  rewrite !Hsame by elem_now. rewrite Hid, Hsecret, Haccount.
  by rewrite !truthy_truthy.
Qed.

(** Six crashes after one second each. *)
Lemma supervise_delays_witness :
  Forall (λ seconds, seconds = 3 ∨ 50 ≤ seconds ≤ 120)%Z
         (sleeps (snd (supervise supervisor_start (replicate 6 (mkRun 1000 1 1001))))).
Proof.
  apply (supervise_delays (replicate 6 (mkRun 1000 1 1001)) supervisor_start); cbn; lia.
Defined.

(** Six crashes, a run of a minute, two crashes. *)
Lemma supervise_forgets_witness :
  let crash := mkRun 1000 1 1001 in
  let runs := replicate 6 crash ++ mkRun 2000 0 2060 :: [crash; crash] in
  rapid_crash_count (fst (supervise supervisor_start runs)) = 2%Z ∧
  sleeps (snd (supervise supervisor_start runs)) = [3; 3; 3; 3; 50; 60; 3; 3; 3]%Z.
Proof.
  cbv zeta.
  assert (Hclock : clock_ok (mkRun 2000 0 2060)) by (repeat split; cbn; lia).
  assert (Hrapid : Forall rapid [mkRun 1000 1 1001; mkRun 1000 1 1001]).
  { repeat constructor; cbn; lia. }
  destruct (supervise_forgets supervisor_start (replicate 6 (mkRun 1000 1 1001))
              (mkRun 2000 0 2060) [mkRun 1000 1 1001; mkRun 1000 1 1001]
              Hclock ltac:(cbn; lia) Hrapid ltac:(cbn; lia)) as [Hcount Hsleeps].
  split; [exact Hcount|]. rewrite Hsleeps. vm_compute. reflexivity.
Defined.

(** A doctor that writes a key in plain text into the config. *)
Lemma cold_setup_doctor_witness :
  let leaked := Patch.Json (Patch.VStr "sk-ant-123") in
  let c := mkCommands false ∅ (λ f, f) (λ _, Patch.Json (Patch.VObj [])) false
             (λ _, leaked) (λ f, match f with
                   | Patch.Json (Patch.VStr text) => includes "sk-ant-" text
                   | _ => false
                   end) (λ _, mkRun 1000 1 1001) in
  let d' := snd (cold_setup c (mkDisk false Patch.Missing Patch.Missing)) in
  config_file d' = pre_doctor d' ∧ config_file d' ≠ leaked.
Proof.
  cbv zeta.
  destruct (cold_setup_doctor
              (mkCommands false ∅ (λ f, f) (λ _, Patch.Json (Patch.VObj [])) false
                 (λ _, Patch.Json (Patch.VStr "sk-ant-123"))
                 (λ f, match f with
                        | Patch.Json (Patch.VStr text) => includes "sk-ant-" text
                        | _ => false
                        end)
                 (λ _, mkRun 1000 1 1001))
              (mkDisk false Patch.Missing Patch.Missing))
    as (_ & _ & _ & Hconfig & _).
  cbv zeta in Hconfig. split; [rewrite Hconfig at 1; reflexivity|].
  vm_compute. discriminate.
Defined.

(** A cold start in an empty container, then a second invocation. *)
Lemma entrypoint_restart_witness :
  let first := entrypoint 1 (quiet_commands false) (mkDisk false Patch.Missing Patch.Missing) in
  let second := entrypoint 2 (quiet_commands false) (disk first) in
  disk second = disk first ∧
  trace second = [RemoveLockFiles; Gateway 1; Sleep 3; RemoveLockFiles; Gateway 1; Sleep 3].
Proof.
  cbv zeta.
  destruct (entrypoint_restart 1 2 (quiet_commands false) (quiet_commands false)
              (mkDisk false Patch.Missing Patch.Missing) eq_refl eq_refl)
    as (_ & Hdisk & Htrace & _); [vm_compute; reflexivity|].
  split; [exact Hdisk|]. rewrite Htrace. vm_compute. reflexivity.
Defined.

(** A worker with the two credentials and an empty account id. *)
Lemma r2_configured_from_worker_witness :
  let env : Env.MoltbotEnv := {[ "R2_ACCESS_KEY_ID" := "id"; "R2_SECRET_ACCESS_KEY" := "s";
                                 "CF_ACCOUNT_ID" := "" ]} in
  r2_configured (Env.buildEnvVars env) = false.
Proof.
  intros env. rewrite (r2_configured_from_worker env (Env.buildEnvVars env)); [|done].
  vm_compute. reflexivity.
Defined.

(** *** The redacted dump of the config *)

Section Redact.

Import Patch.

(** [String.prototype.toLowerCase], which follows the Unicode tables. *)
Variable toLowerCase : string → string.

(** The test on the name of a property. *)
Definition secret_name (k : string) : bool :=
  includes "key" (toLowerCase k) || includes "token" (toLowerCase k)
  || includes "secret" (toLowerCase k) || includes "password" (toLowerCase k).

(** [redact(o, d)] of the dump, on a value that [JSON.parse] returned.
    [for (const k in o)] goes through the indices of an array, then
    through its named properties, and through the properties of an object;
    on a primitive and on [null] it changes nothing. *)
Fixpoint redact (d : nat) (o : Val) {struct o} : Val :=
  let entry (k : string) (v : Val) : Val :=
    match v with
    | VStr _ => if secret_name k then VStr "[REDACTED]" else v
    | VArr _ _ | VObj _ => redact (S d) v
    | _ => v
    end in
  if 3 <? d then o else
  match o with
  | VArr elems named =>
      VArr ((fix each (i : nat) (l : list Val) : list Val :=
               match l with
               | [] => []
               | v :: rest => entry (pretty i) v :: each (S i) rest
               end) 0 elems)
           (map (λ kv, (kv.1, entry kv.1 kv.2)) named)
  | VObj props => VObj (map (λ kv, (kv.1, entry kv.1 kv.2)) props)
  | _ => o
  end.

(** One step down into a value: into a property of an object (or a named
    property of an array), or into an element of an array. *)
Inductive Step : Type :=
| Key (k : string)
| Index (i : nat).

(** The name [for (const k in o)] gives the step. *)
Definition step_name (s : Step) : string :=
  match s with
  | Key k => k
  | Index i => pretty i
  end.

Definition child (s : Step) (v : Val) : option Val :=
  match s, v with
  | Key k, VObj props => props_get k props
  | Key k, VArr _ named => props_get k named
  | Index i, VArr elems _ => elems !! i
  | _, _ => None
  end.

(** The value at the end of a path. *)
Fixpoint walk (q : list Step) (v : Val) : option Val :=
  match q with
  | [] => Some v
  | s :: rest => c ← child s v; walk rest c
  end.

(** What the dump shows for a value found [depth] steps down, under the
    step [s]. *)
Definition shown (depth : nat) (s : Step) (v : Val) : Val :=
  match v with
  | VStr _ => if (depth <=? 4) && secret_name (step_name s) then VStr "[REDACTED]" else v
  | _ => redact depth v
  end.

(** What [redact] at depth [d] makes of the property [k] holding [v]. *)
Definition entry (d : nat) (k : string) (v : Val) : Val :=
  match v with
  | VStr _ => if secret_name k then VStr "[REDACTED]" else v
  | VArr _ _ | VObj _ => redact (S d) v
  | _ => v
  end.

Fixpoint entries (d i : nat) (l : list Val) : list Val :=
  match l with
  | [] => []
  | v :: rest => entry d (pretty i) v :: entries d (S i) rest
  end.

Lemma redact_deep d o : 3 < d → redact d o = o.
Proof.
  intros Hd. apply Nat.ltb_lt in Hd. destruct o; cbn [redact]; by rewrite Hd.
Qed.

Lemma redact_obj d props :
  d ≤ 3 → redact d (VObj props) = VObj (map (λ kv, (kv.1, entry d kv.1 kv.2)) props).
Proof. intros Hd. apply Nat.ltb_ge in Hd. cbn [redact]. by rewrite Hd. Qed.

Lemma redact_arr d elems named :
  d ≤ 3 →
  redact d (VArr elems named)
  = VArr (entries d 0 elems) (map (λ kv, (kv.1, entry d kv.1 kv.2)) named).
Proof.
  intros Hd. apply Nat.ltb_ge in Hd. cbn [redact]. rewrite Hd. f_equal.
  generalize 0. induction elems as [|v elems IH]; intros i; [done|].
  cbn [entries]. by rewrite <- IH.
Qed.

Lemma props_get_map (f : string → Val → Val) k ps :
  props_get k (map (λ kv, (kv.1, f kv.1 kv.2)) ps) = f k <$> props_get k ps.
Proof.
  induction ps as [|[k' v] ps IH]; cbn; [done|].
  destruct (String.eqb_spec k' k) as [->|Hne]; [done|exact IH].
Qed.

Lemma lookup_entries d elems : ∀ i j,
  entries d i elems !! j = entry d (pretty (i + j)) <$> elems !! j.
Proof.
  induction elems as [|v elems IH]; intros i j; [done|].
  destruct j as [|j]; cbn.
  - by rewrite Nat.add_0_r.
  - rewrite IH. by replace (S i + j) with (i + S j) by lia.
Qed.

Lemma entry_shown d k v s :
  d ≤ 3 → step_name s = k → entry d k v = shown (S d) s v.
Proof.
  intros Hd <-. unfold entry, shown.
  assert (Hle : (S d <=? 4) = true) by (apply Nat.leb_le; lia).
  rewrite Hle. destruct v; try done; cbn [redact]; by destruct (3 <? S d).
Qed.

(** One step into a redacted value. *)
Lemma child_redact s d o :
  child s (redact d o) = shown (S d) s <$> child s o.
Proof.
  destruct (Nat.ltb_spec 3 d) as [Hdeep|Hshallow].
  - rewrite redact_deep by done. destruct (child s o) as [v|]; cbn; [|done].
    f_equal. unfold shown. destruct v; rewrite ?redact_deep by lia; try done.
    destruct (Nat.leb_spec (S d) 4); [lia|done].
  - destruct s as [k|i], o as [| b | n | t | elems named | props];
      try (by cbn [redact]; destruct (3 <? d));
      first [rewrite redact_obj by lia | rewrite redact_arr by lia]; cbn [child].
    + rewrite (props_get_map (entry d)). destruct (props_get k named) as [v|]; cbn; [|done].
      f_equal. by apply entry_shown; [lia|].
    + rewrite (props_get_map (entry d)). destruct (props_get k props) as [v|]; cbn; [|done].
      f_equal. by apply entry_shown; [lia|].
    + rewrite lookup_entries. destruct (elems !! i) as [v|]; cbn; [|done].
      f_equal. by apply entry_shown; [lia|].
Qed.

(** The dump, path by path: what it shows at the end of a path is the
    value there, redacted from that depth on, or [[REDACTED]] for a string
    at most four steps down under a name that passes the test. *)
Lemma walk_redact p : ∀ s d o,
  walk (p ++ [s]) (redact d o) = shown (d + S (length p)) s <$> walk (p ++ [s]) o.
Proof.
  induction p as [|s0 p IH]; intros s d o; cbn [app walk length].
  - rewrite child_redact. rewrite Nat.add_1_r.
    by destruct (child s o).
  - rewrite child_redact. destruct (child s0 o) as [v|]; cbn [fmap option_fmap option_map mbind option_bind]; [|done].
    replace (d + S (S (length p))) with (S d + S (length p)) by lia.
    destruct v as [| b | n | t | elems named | props];
      try exact (IH s (S d) _).
    unfold shown at 1.
    by destruct (_ && _); destruct p as [|[|] p]; destruct s.
Qed.

(** X24: what the dump hides: a string at most four steps down, under a name
    that passes the test, is shown as [[REDACTED]].  What it leaves: a
    string under any other name, and a number, a boolean or [null] under
    any name, are shown as they are. *)
Theorem redact_hides p k c v :
  length p ≤ 3 →
  walk (p ++ [Key k]) c = Some v →
  walk (p ++ [Key k]) (redact 0 c) =
    Some match v with
         | VStr _ => if secret_name k then VStr "[REDACTED]" else v
         | VArr _ _ | VObj _ => redact (S (length p)) v
         | _ => v
         end.
Proof.
  intros Hp Hv. rewrite walk_redact, Hv. cbn [fmap option_fmap option_map].
  f_equal. unfold shown. cbn [step_name Nat.add].
  assert (Hle : (S (length p) <=? 4) = true) by (apply Nat.leb_le; lia).
  rewrite Hle. destruct v; try done; cbn [redact]; by destruct (3 <? _).
Qed.

(** X25: where the dump stops: from the fifth step down, everything is shown
    as it is, whatever its name. *)
Theorem redact_depth_limit p s c :
  4 ≤ length p →
  walk (p ++ [s]) (redact 0 c) = walk (p ++ [s]) c.
Proof.
  intros Hp. rewrite walk_redact. destruct (walk (p ++ [s]) c) as [v|]; [|done].
  cbn [fmap option_fmap option_map]. f_equal. unfold shown.
  destruct v; rewrite ?redact_deep by (cbn; lia); try done.
  by destruct (Nat.leb_spec (0 + S (length p)) 4); [cbn in *; lia|].
Qed.

(** X26: the patch and the dump together: the token that the patch writes
    into [gateway.auth] is not shown by the dump of the patched file. *)
Theorem redact_gateway_token env props c' g :
  toLowerCase "token" = "token" →
  patch_config env (VObj props) = Some c' →
  get c' "gateway" = Some (Some (VObj g)) →
  walk [Key "gateway"; Key "auth"; Key "token"] (reparse c')
    = Some (VStr (default "sandbox-internal-fallback"
                    (truthy (env !! "SANDBOX_GATEWAY_TOKEN")))) ∧
  walk [Key "gateway"; Key "auth"; Key "token"] (redact 0 (reparse c'))
    = Some (VStr "[REDACTED]").
Proof.
  intros Hlower Hrun Hgateway.
  destruct (patch_config_slot _ _ _ "gateway" Hrun) as (props' & -> & Hslot).
  rewrite slot_run_gateway in Hslot.
  destruct (gateway_patched _ _ _ Hslot) as (gw & g' & Hgw & Hg & _ & _ & _ & Hauth & _).
  cbn in Hgateway. rewrite Hgw in Hgateway. injection Hgateway as ->.
  cbn in Hg. injection Hg as <-.
  assert (Hwalk : walk [Key "gateway"; Key "auth"; Key "token"] (reparse (VObj props'))
                  = Some (VStr (default "sandbox-internal-fallback"
                                  (truthy (env !! "SANDBOX_GATEWAY_TOKEN"))))).
  { cbn [walk reparse child]. fold (reparse_props props').
    rewrite props_get_reparse, Hgw. cbn [fmap option_fmap option_map mbind option_bind reparse child].
    fold (reparse_props g). rewrite props_get_reparse, Hauth. reflexivity. }
  split; [exact Hwalk|].
  change [Key "gateway"; Key "auth"; Key "token"]
    with ([Key "gateway"; Key "auth"] ++ [Key "token"]) in *.
  rewrite walk_redact, Hwalk. cbn. unfold secret_name. rewrite Hlower.
  by rewrite orb_true_r.
Qed.

End Redact.

(** [toLowerCase] on strings of ASCII characters. *)
Definition lower_ascii (c : ascii) : ascii :=
  let n := nat_of_ascii c in
  if (65 <=? n) && (n <=? 90) then ascii_of_nat (n + 32) else c.

Fixpoint lower (s : string) : string :=
  match s with
  | EmptyString => EmptyString
  | String c rest => String (lower_ascii c) (lower rest)
  end.

Section RedactExamples.

Import Patch.

(** A provider key three steps down. *)
Lemma redact_hides_witness :
  let c := VObj [("models", VObj [("providers",
             VObj [("cf-ai-gw-openai", VObj [("apiKey", VStr "sk-1")])])])] in
  walk [Key "models"; Key "providers"; Key "cf-ai-gw-openai"; Key "apiKey"]
       (redact lower 0 c) = Some (VStr "[REDACTED]").
Proof.
  cbv zeta.
  exact (redact_hides lower [Key "models"; Key "providers"; Key "cf-ai-gw-openai"]
           "apiKey"
           (VObj [("models", VObj [("providers",
              VObj [("cf-ai-gw-openai", VObj [("apiKey", VStr "sk-1")])])])])
           (VStr "sk-1") ltac:(cbn; lia) eq_refl).
Defined.

(** The same key one step further down. *)
Lemma redact_depth_limit_witness :
  let c := VObj [("a", VObj [("b", VObj [("c", VObj [("d",
             VObj [("apiKey", VStr "sk-1")])])])])] in
  walk [Key "a"; Key "b"; Key "c"; Key "d"; Key "apiKey"] (redact lower 0 c)
    = Some (VStr "sk-1").
Proof.
  cbv zeta.
  rewrite (redact_depth_limit lower [Key "a"; Key "b"; Key "c"; Key "d"] (Key "apiKey"))
    by (cbn; lia).
  reflexivity.
Defined.

(** The dump of the patched empty document. *)
Lemma redact_gateway_token_witness :
  let env : ProcessEnv := {[ "SANDBOX_GATEWAY_TOKEN" := "s3cret" ]} in
  match patch_config env (VObj []) with
  | Some c' =>
      walk [Key "gateway"; Key "auth"; Key "token"] (reparse c') = Some (VStr "s3cret") ∧
      walk [Key "gateway"; Key "auth"; Key "token"] (redact lower 0 (reparse c'))
        = Some (VStr "[REDACTED]")
  | None => False
  end.
Proof.
  cbv zeta.
  pose proof (redact_gateway_token lower {[ "SANDBOX_GATEWAY_TOKEN" := "s3cret" ]} [])
    as Hhidden.
  destruct (patch_config {[ "SANDBOX_GATEWAY_TOKEN" := "s3cret" ]} (VObj []))
    as [c'|] eqn:Hrun; [|by vm_compute in Hrun].
  vm_compute in Hrun. injection Hrun as <-.
  exact (Hhidden _ _ eq_refl eq_refl eq_refl).
Defined.

End RedactExamples.

End Startup.
